(** * Social caption generator: the action layer over the entity store

    A shallow embedding of [src/db/tables.ts] (the three tables) and of the
    action module (identity resolution, the two access guards and the nine
    handlers), followed by the properties of the operation surface.

    Conventions.
    - A row is a record; a table is the list of its rows in insertion order.
      The [primaryKey] column is enforced by [insert], as the store does.
    - A handler is a computation over a [World]: the store, a journal of the
      statements sent to it, a clock and a source of fresh identifiers.  A
      thrown error ends the computation and keeps the world reached so far.
    - Query filters are the terms the source builds with [eq], [and] and
      [or]; they are evaluated the way the SQL they compile to is evaluated,
      in three-valued logic. *)

From stdpp Require Import base option list strings gmap.
From Stdlib Require Import ZArith.

Local Open Scope string_scope.
Local Open Scope list_scope.

(** ** Values *)

(** [Date] values are milliseconds since the epoch. *)
Definition Date := Z.
Bind Scope Z_scope with Date.

(** ** src/db/tables.ts *)

Module CaptionSessions.
Record Row := mk {
  id : string;
  userId : string;
  name : string;
  description : option string;
  coreMessage : option string;
  targetAudience : option string;
  createdAt : Date;
  updatedAt : Date;
}.

Definition set_name (v : string) (r : Row) : Row :=
  mk (id r) (userId r) v (description r) (coreMessage r) (targetAudience r)
     (createdAt r) (updatedAt r).
Definition set_description (v : string) (r : Row) : Row :=
  mk (id r) (userId r) (name r) (Some v) (coreMessage r) (targetAudience r)
     (createdAt r) (updatedAt r).
Definition set_coreMessage (v : string) (r : Row) : Row :=
  mk (id r) (userId r) (name r) (description r) (Some v) (targetAudience r)
     (createdAt r) (updatedAt r).
Definition set_targetAudience (v : string) (r : Row) : Row :=
  mk (id r) (userId r) (name r) (description r) (coreMessage r) (Some v)
     (createdAt r) (updatedAt r).
Definition set_updatedAt (v : Date) (r : Row) : Row :=
  mk (id r) (userId r) (name r) (description r) (coreMessage r)
     (targetAudience r) (createdAt r) v.
End CaptionSessions.

Module Captions.
Record Row := mk {
  id : string;
  sessionId : string;
  platform : option string;
  tone : option string;
  variantLabel : option string;
  captionText : string;
  hashtags : option string;
  createdAt : Date;
}.

Definition set_platform (v : string) (r : Row) : Row :=
  mk (id r) (sessionId r) (Some v) (tone r) (variantLabel r) (captionText r)
     (hashtags r) (createdAt r).
Definition set_tone (v : string) (r : Row) : Row :=
  mk (id r) (sessionId r) (platform r) (Some v) (variantLabel r)
     (captionText r) (hashtags r) (createdAt r).
Definition set_variantLabel (v : string) (r : Row) : Row :=
  mk (id r) (sessionId r) (platform r) (tone r) (Some v) (captionText r)
     (hashtags r) (createdAt r).
Definition set_captionText (v : string) (r : Row) : Row :=
  mk (id r) (sessionId r) (platform r) (tone r) (variantLabel r) v
     (hashtags r) (createdAt r).
Definition set_hashtags (v : string) (r : Row) : Row :=
  mk (id r) (sessionId r) (platform r) (tone r) (variantLabel r)
     (captionText r) (Some v) (createdAt r).
End Captions.

Module CaptionTemplates.
Record Row := mk {
  id : string;
  userId : option string;       (* null -> global/system template *)
  name : string;
  platform : option string;
  tone : option string;
  body : string;
  isSystem : bool;
  createdAt : Date;
}.
End CaptionTemplates.

#[global] Instance CaptionSessions_eq_dec : EqDecision CaptionSessions.Row.
Proof. solve_decision. Defined.
#[global] Instance Captions_eq_dec : EqDecision Captions.Row.
Proof. solve_decision. Defined.
#[global] Instance CaptionTemplates_eq_dec : EqDecision CaptionTemplates.Row.
Proof. solve_decision. Defined.

Record Db := mkDb {
  sessions : list CaptionSessions.Row;
  captions : list Captions.Row;
  templates : list CaptionTemplates.Row;
}.

(** ** The query interface of the store (astro:db) *)

Module astro_db.
(** A text column: declared [column.text()] (never NULL) or
    [column.text({ optional: true })] (NULL allowed). *)
Inductive Column (R : Type) : Type :=
| text (get : R → string)
| text_optional (get : R → option string).
Arguments text {R} get.
Arguments text_optional {R} get.

Definition read {R} (c : Column R) (r : R) : option string :=
  match c with
  | text get => Some (get r)
  | text_optional get => get r
  end.

(** Filters.  The right operand of [eq] is a JavaScript [string | null]. *)
Inductive Filter (R : Type) : Type :=
| eq (c : Column R) (v : option string)
| and (f g : Filter R)
| or (f g : Filter R).
Arguments eq {R} c v.
Arguments and {R} f g.
Arguments or {R} f g.

(** SQL truth values: [None] is UNKNOWN. *)
Definition sql_and (a b : option bool) : option bool :=
  match a, b with
  | Some false, _ | _, Some false => Some false
  | Some true, Some true => Some true
  | _, _ => None
  end.

Definition sql_or (a b : option bool) : option bool :=
  match a, b with
  | Some true, _ | _, Some true => Some true
  | Some false, Some false => Some false
  | _, _ => None
  end.

(** [eq] compiles to the SQL comparison [column = ?] with the operand bound
    as a parameter.  In SQL two NULLs are not equal: when either side is
    NULL the comparison is UNKNOWN, not true.  Testing a column for NULL
    takes the store's separate [isNull] operator, which the action module
    does not import. *)
Fixpoint eval {R} (f : Filter R) (r : R) : option bool :=
  match f with
  | eq c v =>
      match read c r, v with
      | Some a, Some b => Some (bool_decide (a = b))
      | _, _ => None
      end
  | and f g => sql_and (eval f r) (eval g r)
  | or f g => sql_or (eval f r) (eval g r)
  end.

(** A WHERE clause keeps the rows on which the filter is true. *)
Definition matches {R} (f : Filter R) (r : R) : bool :=
  match eval f r with
  | Some true => true
  | _ => false
  end.
End astro_db.

(** ** Worlds, errors and the handler monad *)

Inductive ErrorCode :=
| UNAUTHORIZED | NOT_FOUND | FORBIDDEN | BAD_REQUEST.

(** What a handler can throw: an [ActionError] of the module, or a failure
    raised by the store itself. *)
Inductive Failure :=
| ActionError (code : ErrorCode) (message : string)
| StoreError (message : string).

Inductive Outcome (A : Type) : Type :=
| Return (a : A)
| Throw (e : Failure).
Arguments Return {A} a.
Arguments Throw {A} e.

Inductive Table := TCaptionSessions | TCaptions | TCaptionTemplates.

Inductive Statement :=
| Select (t : Table)
| Insert (t : Table)
| Update (t : Table)
| Delete (t : Table).

Record World := mkWorld {
  db : Db;
  journal : list Statement;       (* statements sent to the store, oldest first *)
  clock : Date;                   (* what [new Date()] reads *)
  uuid_source : nat → string;     (* what [crypto.randomUUID()] draws from *)
  uuid_drawn : nat;
}.

Definition Async (A : Type) : Type := World → Outcome A * World.

Definition resolve {A} (a : A) : Async A := λ w, (Return a, w).
Definition throw {A} (e : Failure) : Async A := λ w, (Throw e, w).
Definition await {A B} (m : Async A) (k : A → Async B) : Async B :=
  λ w, match m w with
       | (Return a, w') => k a w'
       | (Throw e, w') => (Throw e, w')
       end.

#[global] Instance Async_ret : MRet Async := @resolve.
#[global] Instance Async_bind : MBind Async := λ A B k m, await m k.

Definition outcome {A} (r : Outcome A * World) : Outcome A := r.1.
Definition world {A} (r : Outcome A * World) : World := r.2.

Definition new_Date : Async Date := λ w, (Return (clock w), w).

Definition randomUUID : Async string :=
  λ w, (Return (uuid_source w (uuid_drawn w)),
        mkWorld (db w) (journal w) (clock w) (uuid_source w) (S (uuid_drawn w))).

(** *** Tables as seen by the store *)

Record TableDef (R : Type) := mkTable {
  table : Table;
  primaryKey : R → string;
  rows : Db → list R;
  with_rows : list R → Db → Db;
}.
Arguments table {R} _.
Arguments primaryKey {R} _ _.
Arguments rows {R} _ _.
Arguments with_rows {R} _ _ _.

Definition CaptionSessionsT : TableDef CaptionSessions.Row :=
  mkTable _ TCaptionSessions CaptionSessions.id sessions
          (λ l d, mkDb l (captions d) (templates d)).
Definition CaptionsT : TableDef Captions.Row :=
  mkTable _ TCaptions Captions.id captions
          (λ l d, mkDb (sessions d) l (templates d)).
Definition CaptionTemplatesT : TableDef CaptionTemplates.Row :=
  mkTable _ TCaptionTemplates CaptionTemplates.id templates
          (λ l d, mkDb (sessions d) (captions d) l).

Definition sent (s : Statement) (d : Db) (w : World) : World :=
  mkWorld d (journal w ++ [s]) (clock w) (uuid_source w) (uuid_drawn w).

(** [db.select().from(T).where(f)] *)
Definition db_select {R} (T : TableDef R) (f : astro_db.Filter R)
  : Async (list R) :=
  λ w, (Return (filter (λ r, astro_db.matches f r = true) (rows T (db w))),
        sent (Select (table T)) (db w) w).

(** [db.insert(T).values(r).returning()]: refused when the primary key is
    taken. *)
Definition db_insert {R} (T : TableDef R) (r : R) : Async (list R) :=
  λ w, if bool_decide (primaryKey T r ∈ primaryKey T <$> rows T (db w))
       then (Throw (StoreError "UNIQUE constraint failed"),
             sent (Insert (table T)) (db w) w)
       else (Return [r],
             sent (Insert (table T))
                  (with_rows T (rows T (db w) ++ [r]) (db w)) w).

(** The object given to [.set(...)], as the column assignments it holds. *)
Definition apply_set {R} (assignments : list (R → R)) (r : R) : R :=
  foldl (λ acc g, g acc) r assignments.

(** [db.update(T).set(s).where(f).returning()]: an empty [set] object is an
    error of the query builder. *)
Definition db_update {R} (T : TableDef R) (s : list (R → R))
    (f : astro_db.Filter R) : Async (list R) :=
  λ w, match s with
       | [] => (Throw (StoreError "No values to set"), w)
       | _ =>
         (Return (apply_set s <$>
                    filter (λ r, astro_db.matches f r = true) (rows T (db w))),
          sent (Update (table T))
               (with_rows T
                  ((λ r, if astro_db.matches f r then apply_set s r else r)
                     <$> rows T (db w)) (db w)) w)
       end.

(** [db.delete(T).where(f)]: the result carries [rowsAffected]. *)
Definition db_delete {R} (T : TableDef R) (f : astro_db.Filter R)
  : Async nat :=
  λ w, (Return (length (filter (λ r, astro_db.matches f r = true)
                               (rows T (db w)))),
        sent (Delete (table T))
             (with_rows T
                (filter (λ r, astro_db.matches f r = false) (rows T (db w)))
                (db w)) w).

(** ** Request context and input validation (astro:actions, astro:schema) *)

Module App.
Record User := mkUser { id : string }.
Record Locals := mkLocals { user : option User }.
End App.

Record ActionAPIContext := mkContext { locals : option App.Locals }.

(** The values a request can carry in a field of its input object. *)
Inductive JsValue :=
| JsNull
| JsBoolean (b : bool)
| JsNumber (n : Z)
| JsString (s : string).

(** An input object: its own keys and their values; a key that is not in
    the map reads as [undefined]. *)
Abbreviation JsObject := (gmap string JsValue).

(** A request body as a schema of the form [z.object(...).optional()] can
    meet it: an object, or a value that is not an object (an array, or
    [null], a boolean, a number or a string).  No body at all reads as
    [undefined]. *)
Inductive JsBody :=
| JsObj (o : JsObject)
| JsArray (items : list JsValue)
| JsOther (v : JsValue).

Module z.
Definition Schema (A : Type) : Type := option JsValue → option A.

(** [z.string()] *)
Definition string : Schema String.string :=
  λ v, match v with
       | Some (JsString s) => Some s
       | _ => None
       end.

(** [.min(n)] on a string schema *)
Definition min (n : nat) (p : Schema String.string) : Schema String.string :=
  λ v, match p v with
       | Some s => if bool_decide (n ≤ String.length s)%nat then Some s else None
       | None => None
       end.

(** [.optional()]: [undefined] is accepted as it is *)
Definition optional {A} (p : Schema A) : Schema (option A) :=
  λ v, match v with
       | None => Some None
       | Some _ => Some <$> p v
       end.

(** [.refine(check)] on an object schema *)
Definition refine {I A} (check : A → bool) (p : I → option A) : I → option A :=
  λ raw, match p raw with
         | Some a => if check a then Some a else None
         | None => None
         end.
End z.

(** [input !== undefined] *)
Definition defined {A} (v : option A) : bool :=
  match v with Some _ => true | None => false end.

(** JavaScript truthiness of a [string | null | undefined]. *)
Definition truthy (v : option string) : bool :=
  match v with
  | Some s => negb (bool_decide (s = ""))
  | None => false
  end.

(** [...(v !== undefined ? { column: v } : {})] inside a [set] object *)
Definition spread {R V} (v : option V) (assign : V → R → R) : list (R → R) :=
  match v with
  | Some x => [assign x]
  | None => []
  end.

(** [defineAction({ input, handler })]: the input is validated against the
    schema first; the handler runs on the parsed value only. *)
Definition defineAction {I P O} (input : I → option P)
    (handler : P → ActionAPIContext → Async O) : I → ActionAPIContext → Async O :=
  λ raw context,
    match input raw with
    | Some parsed => handler parsed context
    | None => throw (ActionError BAD_REQUEST "Failed to validate")
    end.

Record Envelope (D : Type) := mkEnvelope { success : bool; data : D }.
Arguments mkEnvelope {D} _ _.
Arguments success {D} _.
Arguments data {D} _.

Record Listing (R : Type) := mkListing { items : list R; total : nat }.
Arguments mkListing {R} _ _.
Arguments items {R} _.
Arguments total {R} _.

(** ** The action module *)

Import astro_db (text, text_optional).

Definition requireUser (context : ActionAPIContext) : Async App.User :=
  let user := locals context ≫= App.user in
  match user with
  | None =>
      throw (ActionError UNAUTHORIZED
               "You must be signed in to perform this action.")
  | Some user => resolve user
  end.

Definition getOwnedSession (sessionId userId : string)
  : Async CaptionSessions.Row :=
  found ← db_select CaptionSessionsT
            (astro_db.and
               (astro_db.eq (text CaptionSessions.id) (Some sessionId))
               (astro_db.eq (text CaptionSessions.userId) (Some userId)));
  match head found with
  | None => throw (ActionError NOT_FOUND "Caption session not found.")
  | Some session => resolve session
  end.

Definition ensureTemplateAccessible (templateId userId : string)
  : Async CaptionTemplates.Row :=
  found ← db_select CaptionTemplatesT
            (astro_db.eq (text CaptionTemplates.id) (Some templateId));
  match head found with
  | None => throw (ActionError NOT_FOUND "Template not found.")
  | Some template =>
      if truthy (CaptionTemplates.userId template)
         && bool_decide (CaptionTemplates.userId template ≠ Some userId)
      then throw (ActionError FORBIDDEN
                    "You do not have access to this template.")
      else resolve template
  end.

(** *** Parsed inputs, one record per action *)

Module CreateCaptionSessionInput.
Record t := mk {
  name : string;
  description : option string;
  coreMessage : option string;
  targetAudience : option string;
}.
End CreateCaptionSessionInput.

Module UpdateCaptionSessionInput.
Record t := mk {
  id : string;
  name : option string;
  description : option string;
  coreMessage : option string;
  targetAudience : option string;
}.
End UpdateCaptionSessionInput.

Module CreateCaptionInput.
Record t := mk {
  sessionId : string;
  platform : option string;
  tone : option string;
  variantLabel : option string;
  captionText : string;
  hashtags : option string;
  templateId : option string;
}.
End CreateCaptionInput.

Module UpdateCaptionInput.
Record t := mk {
  id : string;
  sessionId : string;
  platform : option string;
  tone : option string;
  variantLabel : option string;
  captionText : option string;
  hashtags : option string;
}.
End UpdateCaptionInput.

Module DeleteCaptionInput.
Record t := mk { id : string; sessionId : string }.
End DeleteCaptionInput.

Module ListCaptionsInput.
Record t := mk { sessionId : string }.
End ListCaptionsInput.

Module CreateTemplateInput.
Record t := mk {
  name : string;
  platform : option string;
  tone : option string;
  body : string;
}.
End CreateTemplateInput.

(** *** The exported actions *)

Module server.

(** **** createCaptionSession *)

Definition createCaptionSession_input (raw : option JsObject)
  : option CreateCaptionSessionInput.t :=
  o ← raw;
  name ← z.min 1 z.string (o !! "name");
  description ← z.optional z.string (o !! "description");
  coreMessage ← z.optional z.string (o !! "coreMessage");
  targetAudience ← z.optional z.string (o !! "targetAudience");
  Some (CreateCaptionSessionInput.mk name description coreMessage
          targetAudience).

Definition createCaptionSession_handler
    (input : CreateCaptionSessionInput.t) (context : ActionAPIContext)
  : Async (Envelope (option CaptionSessions.Row)) :=
  user ← requireUser context;
  now ← new_Date;
  uuid ← randomUUID;
  inserted ← db_insert CaptionSessionsT
    (CaptionSessions.mk
       uuid
       (App.id user)
       (CreateCaptionSessionInput.name input)
       (CreateCaptionSessionInput.description input)
       (CreateCaptionSessionInput.coreMessage input)
       (CreateCaptionSessionInput.targetAudience input)
       now
       now);
  resolve (mkEnvelope true (head inserted)).

Definition createCaptionSession :=
  defineAction createCaptionSession_input createCaptionSession_handler.

(** **** updateCaptionSession *)

Definition updateCaptionSession_input
  : option JsObject → option UpdateCaptionSessionInput.t :=
  z.refine
    (λ input,
       defined (UpdateCaptionSessionInput.name input)
       || defined (UpdateCaptionSessionInput.description input)
       || defined (UpdateCaptionSessionInput.coreMessage input)
       || defined (UpdateCaptionSessionInput.targetAudience input))
    (λ raw,
       o ← raw;
       id ← z.min 1 z.string (o !! "id");
       name ← z.optional (z.min 1 z.string) (o !! "name");
       description ← z.optional z.string (o !! "description");
       coreMessage ← z.optional z.string (o !! "coreMessage");
       targetAudience ← z.optional z.string (o !! "targetAudience");
       Some (UpdateCaptionSessionInput.mk id name description coreMessage
               targetAudience)).

Definition updateCaptionSession_handler
    (input : UpdateCaptionSessionInput.t) (context : ActionAPIContext)
  : Async (Envelope (option CaptionSessions.Row)) :=
  user ← requireUser context;
  _ ← getOwnedSession (UpdateCaptionSessionInput.id input) (App.id user);
  now ← new_Date;
  updated ← db_update CaptionSessionsT
    (spread (UpdateCaptionSessionInput.name input) CaptionSessions.set_name
     ++ spread (UpdateCaptionSessionInput.description input)
          CaptionSessions.set_description
     ++ spread (UpdateCaptionSessionInput.coreMessage input)
          CaptionSessions.set_coreMessage
     ++ spread (UpdateCaptionSessionInput.targetAudience input)
          CaptionSessions.set_targetAudience
     ++ [CaptionSessions.set_updatedAt now])
    (astro_db.eq (text CaptionSessions.id)
       (Some (UpdateCaptionSessionInput.id input)));
  resolve (mkEnvelope true (head updated)).

Definition updateCaptionSession :=
  defineAction updateCaptionSession_input updateCaptionSession_handler.

(** **** listCaptionSessions *)

(** [z.object({}).optional()]: [undefined] passes as it is and so does any
    object, of which no field is read; a body that is not an object is
    refused. *)
Definition listCaptionSessions_input (raw : option JsBody) : option unit :=
  match raw with
  | None => Some ()
  | Some (JsObj _) => Some ()
  | Some (JsArray _) => None
  | Some (JsOther _) => None
  end.

Definition listCaptionSessions_handler (_input : unit)
    (context : ActionAPIContext)
  : Async (Envelope (Listing CaptionSessions.Row)) :=
  user ← requireUser context;
  sessions ← db_select CaptionSessionsT
    (astro_db.eq (text CaptionSessions.userId) (Some (App.id user)));
  resolve (mkEnvelope true (mkListing sessions (length sessions))).

Definition listCaptionSessions :=
  defineAction listCaptionSessions_input listCaptionSessions_handler.

(** **** createCaption *)

Definition createCaption_input (raw : option JsObject)
  : option CreateCaptionInput.t :=
  o ← raw;
  sessionId ← z.min 1 z.string (o !! "sessionId");
  platform ← z.optional z.string (o !! "platform");
  tone ← z.optional z.string (o !! "tone");
  variantLabel ← z.optional z.string (o !! "variantLabel");
  captionText ← z.min 1 z.string (o !! "captionText");
  hashtags ← z.optional z.string (o !! "hashtags");
  templateId ← z.optional z.string (o !! "templateId");
  Some (CreateCaptionInput.mk sessionId platform tone variantLabel
          captionText hashtags templateId).

Definition createCaption_handler
    (input : CreateCaptionInput.t) (context : ActionAPIContext)
  : Async (Envelope (option Captions.Row)) :=
  user ← requireUser context;
  _ ← getOwnedSession (CreateCaptionInput.sessionId input) (App.id user);
  _ ← match CreateCaptionInput.templateId input with
      | Some templateId =>
          if truthy (Some templateId)
          then _ ← ensureTemplateAccessible templateId (App.id user);
               resolve ()
          else resolve ()
      | None => resolve ()
      end;
  uuid ← randomUUID;
  now ← new_Date;
  inserted ← db_insert CaptionsT
    (Captions.mk
       uuid
       (CreateCaptionInput.sessionId input)
       (CreateCaptionInput.platform input)
       (CreateCaptionInput.tone input)
       (CreateCaptionInput.variantLabel input)
       (CreateCaptionInput.captionText input)
       (CreateCaptionInput.hashtags input)
       now);
  resolve (mkEnvelope true (head inserted)).

Definition createCaption :=
  defineAction createCaption_input createCaption_handler.

(** **** updateCaption *)

Definition updateCaption_input
  : option JsObject → option UpdateCaptionInput.t :=
  z.refine
    (λ input,
       defined (UpdateCaptionInput.platform input)
       || defined (UpdateCaptionInput.tone input)
       || defined (UpdateCaptionInput.variantLabel input)
       || defined (UpdateCaptionInput.captionText input)
       || defined (UpdateCaptionInput.hashtags input))
    (λ raw,
       o ← raw;
       id ← z.min 1 z.string (o !! "id");
       sessionId ← z.min 1 z.string (o !! "sessionId");
       platform ← z.optional z.string (o !! "platform");
       tone ← z.optional z.string (o !! "tone");
       variantLabel ← z.optional z.string (o !! "variantLabel");
       captionText ← z.optional z.string (o !! "captionText");
       hashtags ← z.optional z.string (o !! "hashtags");
       Some (UpdateCaptionInput.mk id sessionId platform tone variantLabel
               captionText hashtags)).

Definition updateCaption_handler
    (input : UpdateCaptionInput.t) (context : ActionAPIContext)
  : Async (Envelope (option Captions.Row)) :=
  user ← requireUser context;
  _ ← getOwnedSession (UpdateCaptionInput.sessionId input) (App.id user);
  found ← db_select CaptionsT
    (astro_db.and
       (astro_db.eq (text Captions.id) (Some (UpdateCaptionInput.id input)))
       (astro_db.eq (text Captions.sessionId)
          (Some (UpdateCaptionInput.sessionId input))));
  match head found with
  | None => throw (ActionError NOT_FOUND "Caption not found.")
  | Some existing =>
      updated ← db_update CaptionsT
        (spread (UpdateCaptionInput.platform input) Captions.set_platform
         ++ spread (UpdateCaptionInput.tone input) Captions.set_tone
         ++ spread (UpdateCaptionInput.variantLabel input)
              Captions.set_variantLabel
         ++ spread (UpdateCaptionInput.captionText input)
              Captions.set_captionText
         ++ spread (UpdateCaptionInput.hashtags input) Captions.set_hashtags)
        (astro_db.eq (text Captions.id)
           (Some (UpdateCaptionInput.id input)));
      resolve (mkEnvelope true (head updated))
  end.

Definition updateCaption :=
  defineAction updateCaption_input updateCaption_handler.

(** **** deleteCaption *)

Definition deleteCaption_input (raw : option JsObject)
  : option DeleteCaptionInput.t :=
  o ← raw;
  id ← z.min 1 z.string (o !! "id");
  sessionId ← z.min 1 z.string (o !! "sessionId");
  Some (DeleteCaptionInput.mk id sessionId).

Definition deleteCaption_handler
    (input : DeleteCaptionInput.t) (context : ActionAPIContext)
  : Async (Envelope unit) :=
  user ← requireUser context;
  _ ← getOwnedSession (DeleteCaptionInput.sessionId input) (App.id user);
  rowsAffected ← db_delete CaptionsT
    (astro_db.and
       (astro_db.eq (text Captions.id) (Some (DeleteCaptionInput.id input)))
       (astro_db.eq (text Captions.sessionId)
          (Some (DeleteCaptionInput.sessionId input))));
  if bool_decide (rowsAffected = 0%nat)
  then throw (ActionError NOT_FOUND "Caption not found.")
  else resolve (mkEnvelope true ()).

Definition deleteCaption :=
  defineAction deleteCaption_input deleteCaption_handler.

(** **** listCaptions *)

Definition listCaptions_input (raw : option JsObject)
  : option ListCaptionsInput.t :=
  o ← raw;
  sessionId ← z.min 1 z.string (o !! "sessionId");
  Some (ListCaptionsInput.mk sessionId).

Definition listCaptions_handler
    (input : ListCaptionsInput.t) (context : ActionAPIContext)
  : Async (Envelope (Listing Captions.Row)) :=
  user ← requireUser context;
  _ ← getOwnedSession (ListCaptionsInput.sessionId input) (App.id user);
  captions ← db_select CaptionsT
    (astro_db.eq (text Captions.sessionId)
       (Some (ListCaptionsInput.sessionId input)));
  resolve (mkEnvelope true (mkListing captions (length captions))).

Definition listCaptions :=
  defineAction listCaptions_input listCaptions_handler.

(** **** createTemplate *)

(** The object schema names four keys; any other key of the request, such
    as [isSystem], is not read. *)
Definition createTemplate_input (raw : option JsObject)
  : option CreateTemplateInput.t :=
  o ← raw;
  name ← z.min 1 z.string (o !! "name");
  platform ← z.optional z.string (o !! "platform");
  tone ← z.optional z.string (o !! "tone");
  body ← z.min 1 z.string (o !! "body");
  Some (CreateTemplateInput.mk name platform tone body).

Definition createTemplate_handler
    (input : CreateTemplateInput.t) (context : ActionAPIContext)
  : Async (Envelope (option CaptionTemplates.Row)) :=
  user ← requireUser context;
  uuid ← randomUUID;
  now ← new_Date;
  inserted ← db_insert CaptionTemplatesT
    (CaptionTemplates.mk
       uuid
       (Some (App.id user))
       (CreateTemplateInput.name input)
       (CreateTemplateInput.platform input)
       (CreateTemplateInput.tone input)
       (CreateTemplateInput.body input)
       false
       now);
  resolve (mkEnvelope true (head inserted)).

Definition createTemplate :=
  defineAction createTemplate_input createTemplate_handler.

(** **** listTemplates *)

Definition listTemplates_input (raw : option JsBody) : option unit :=
  match raw with
  | None => Some ()
  | Some (JsObj _) => Some ()
  | Some (JsArray _) => None
  | Some (JsOther _) => None
  end.

Definition listTemplates_handler (_input : unit)
    (context : ActionAPIContext)
  : Async (Envelope (Listing CaptionTemplates.Row)) :=
  user ← requireUser context;
  templates ← db_select CaptionTemplatesT
    (astro_db.or
       (astro_db.eq (text_optional CaptionTemplates.userId)
          (Some (App.id user)))
       (astro_db.eq (text_optional CaptionTemplates.userId) None));
  resolve (mkEnvelope true (mkListing templates (length templates))).

Definition listTemplates :=
  defineAction listTemplates_input listTemplates_handler.

End server.

(** ** Names for the errors of the module and for store invariants *)

Definition unauthorized : Failure :=
  ActionError UNAUTHORIZED "You must be signed in to perform this action.".
Definition session_not_found : Failure :=
  ActionError NOT_FOUND "Caption session not found.".
Definition template_not_found : Failure :=
  ActionError NOT_FOUND "Template not found.".
Definition template_forbidden : Failure :=
  ActionError FORBIDDEN "You do not have access to this template.".
Definition caption_not_found : Failure :=
  ActionError NOT_FOUND "Caption not found.".
Definition invalid_input : Failure :=
  ActionError BAD_REQUEST "Failed to validate".

(** The primary keys of a table are pairwise distinct. *)
Definition unique_keys {R} (T : TableDef R) (d : Db) : Prop :=
  NoDup (primaryKey T <$> rows T d).

(** The store invariant: in each of the three tables no primary key
    occurs twice. *)
Definition well_keyed (d : Db) : Prop :=
  unique_keys CaptionSessionsT d
  ∧ unique_keys CaptionsT d
  ∧ unique_keys CaptionTemplatesT d.

(** A computation that keeps the store invariant, however it ends. *)
Definition keeps_keys {A} (m : Async A) : Prop :=
  ∀ w, well_keyed (db w) → well_keyed (db (world (m w))).

(** The empty store. *)
Definition empty_db : Db := mkDb [] [] [].

Ltac run := unfold mbind, Async_bind, await, resolve, throw; simpl.

(** Closed decidable facts about the sample data. *)
Ltac decide_closed := unfold unique_keys; simpl; compute_done.

(** The body is [undefined] or an object: what [z.object({}).optional()]
    lets through. *)
Definition object_or_undefined (body : option JsBody) : Prop :=
  match body with
  | None => True
  | Some (JsObj _) => True
  | Some (JsArray _) => False
  | Some (JsOther _) => False
  end.

(** The request object does not carry the key (it reads as [undefined]). *)
Definition absent (key : string) (raw : option JsObject) : Prop :=
  raw ≫= (λ o, o !! key) = None.

(** ** Sample requests and stores

    Concrete contexts, rows and a world on which the statements below are
    exercised. *)

Definition anonymous : ActionAPIContext := mkContext None.
Definition signed_out : ActionAPIContext :=
  mkContext (Some (App.mkLocals None)).
Definition alice : ActionAPIContext :=
  mkContext (Some (App.mkLocals (Some (App.mkUser "alice")))).
Definition bob : ActionAPIContext :=
  mkContext (Some (App.mkLocals (Some (App.mkUser "bob")))).

Definition launch : CaptionSessions.Row :=
  CaptionSessions.mk "s-launch" "alice" "Launch promo" None
    (Some "New drop") None 10 10.
Definition teaser : CaptionSessions.Row :=
  CaptionSessions.mk "s-teaser" "alice" "Teaser" (Some "short clips") None
    None 11 12.
Definition hiring : CaptionSessions.Row :=
  CaptionSessions.mk "s-hiring" "bob" "Hiring" None None None 13 13.

Definition launch_a : Captions.Row :=
  Captions.mk "c-launch-a" "s-launch" (Some "instagram") None (Some "A")
    "New drop!" None 20.

Definition t_global : CaptionTemplates.Row :=
  CaptionTemplates.mk "t-global" None "Announcement" None None
    "Announcing {product}" true 1.
Definition t_alice : CaptionTemplates.Row :=
  CaptionTemplates.mk "t-alice" (Some "alice") "Mine" None None
    "{hook} - {offer}" false 2.
Definition t_bob : CaptionTemplates.Row :=
  CaptionTemplates.mk "t-bob" (Some "bob") "His" (Some "linkedin") None
    "We are hiring {role}" false 3.
Definition t_blank : CaptionTemplates.Row :=
  CaptionTemplates.mk "t-blank" (Some "") "Blank owner" None None
    "{text}" false 4.

Definition sample_uuid (n : nat) : string :=
  default "uuid-9" (["uuid-0"; "uuid-1"; "uuid-2"] !! n).

Definition demo : World :=
  mkWorld
    (mkDb [launch; teaser; hiring] [launch_a]
          [t_global; t_alice; t_bob; t_blank])
    [] 100 sample_uuid 0.

(** A request object given by its fields. *)
Definition request (fields : list (string * JsValue)) : option JsObject :=
  Some (list_to_map fields).

Definition rename_nothing : option JsObject :=
  request [("id", JsString "s-launch")].
Definition retouch_nothing : option JsObject :=
  request [("id", JsString "c-launch-a"); ("sessionId", JsString "s-launch")].
Definition promo_template : option JsObject :=
  request [("name", JsString "Promo"); ("body", JsString "{hook}");
           ("isSystem", JsBoolean true)].

Definition retouch_elsewhere : option JsObject :=
  request [("id", JsString "c-launch-a"); ("sessionId", JsString "s-teaser");
           ("tone", JsString "fun")].
Definition remove_elsewhere : option JsObject :=
  request [("id", JsString "c-launch-a"); ("sessionId", JsString "s-teaser")].
Definition rename_launch : option JsObject :=
  request [("id", JsString "s-launch"); ("name", JsString "Launch week");
           ("targetAudience", JsString "early adopters")].
Definition caption_with_template (templateId : string) : option JsObject :=
  request [("sessionId", JsString "s-launch");
           ("captionText", JsString "Fresh out of the oven");
           ("templateId", JsString templateId)].

(** ** Further store predicates *)

(** A computation that leaves one part of the store (a table, or the whole
    of it) as it found it, however it ends. *)
Definition leaves {A X} (part : Db → X) (m : Async A) : Prop :=
  ∀ w, part (db (world (m w))) = part (db w).

(** A computation that keeps a property of the store, however it ends. *)
Definition preserves {A} (I : Db → Prop) (m : Async A) : Prop :=
  ∀ w, I (db w) → I (db (world (m w))).

(** The [references] constraint of [Captions.sessionId]: every caption
    belongs to a stored session. *)
Definition no_orphans (d : Db) : Prop :=
  ∀ c, c ∈ captions d →
       ∃ s, s ∈ sessions d ∧ CaptionSessions.id s = Captions.sessionId c.

(** The caption belongs to no session of the user. *)
Definition foreign_caption (userId : string) (d : Db) (c : Captions.Row)
  : Prop :=
  ∀ s, s ∈ sessions d →
       CaptionSessions.id s = Captions.sessionId c →
       CaptionSessions.userId s ≠ userId.

(** The whole store. *)
Definition whole (d : Db) : Db := d.

(** The outcome is a result, or one of the listed failures. *)
Definition ends_in {A} (allowed : list Failure) (o : Outcome A) : Prop :=
  match o with
  | Return _ => True
  | Throw e => e ∈ allowed
  end.

(** A computation that can fail with the listed failures only. *)
Definition may_throw {A} (allowed : list Failure) (m : Async A) : Prop :=
  ∀ w, ends_in allowed (outcome (m w)).

(** The failure of an insert under a primary key already in use. *)
Definition key_taken : Failure := StoreError "UNIQUE constraint failed".

(** The run ended in BAD_REQUEST or UNAUTHORIZED, in the world [w] it
    started from. *)
Definition turned_away {O} (w : World) (r : Outcome O * World) : Prop :=
  world r = w
  ∧ (outcome r = Throw invalid_input ∨ outcome r = Throw unauthorized).

(** The row is in the table after the run exactly when it was in it
    before, in world [w]. *)
Definition stays {O X} (part : Db → list X) (x : X) (w : World)
    (r : Outcome O * World) : Prop :=
  x ∈ part (db (world r)) ↔ x ∈ part (db w).

(** A computation whose failures leave the store as it was. *)
Definition fails_clean {A} (m : Async A) : Prop :=
  ∀ w e w1, m w = (Throw e, w1) → db w1 = db w.

#[global] Instance Table_eq_dec : EqDecision Table.
Proof. solve_decision. Defined.
#[global] Instance Statement_eq_dec : EqDecision Statement.
Proof. solve_decision. Defined.

(** ** Further sample requests *)

Definition list_launch : option JsObject :=
  request [("sessionId", JsString "s-launch")].
Definition new_session : option JsObject :=
  request [("name", JsString "Spring sale");
           ("coreMessage", JsString "20% off")].
Definition plain_caption : option JsObject :=
  request [("sessionId", JsString "s-launch");
           ("captionText", JsString "Hello there");
           ("platform", JsString "instagram")].
Definition caption_for_hiring : option JsObject :=
  request [("sessionId", JsString "s-hiring");
           ("captionText", JsString "Join us");
           ("templateId", JsString "t-bob")].
Definition remove_launch_a : option JsObject :=
  request [("id", JsString "c-launch-a"); ("sessionId", JsString "s-launch")].
Definition retouch_launch_a : option JsObject :=
  request [("id", JsString "c-launch-a"); ("sessionId", JsString "s-launch");
           ("tone", JsString "fun"); ("hashtags", JsString "#new")].
Definition blank_launch_a : option JsObject :=
  request [("id", JsString "c-launch-a"); ("sessionId", JsString "s-launch");
           ("captionText", JsString "")].

(** * Properties *)

(** ** Filters on concrete rows *)

Section filters.
Context {R : Type}.
Implicit Types (r : R) (a b : string).

Lemma matches_eq_text (f : R → string) a r :
  astro_db.matches (astro_db.eq (text f) (Some a)) r = true ↔ f r = a.
Proof.
  unfold astro_db.matches; simpl. case_bool_decide; naive_solver.
Qed.

Lemma matches_eq_text_false (f : R → string) a r :
  astro_db.matches (astro_db.eq (text f) (Some a)) r = false ↔ f r ≠ a.
Proof.
  unfold astro_db.matches; simpl. case_bool_decide; naive_solver.
Qed.

Lemma matches_and_eq_text (f g : R → string) a b r :
  astro_db.matches
    (astro_db.and (astro_db.eq (text f) (Some a))
                  (astro_db.eq (text g) (Some b))) r = true
  ↔ f r = a ∧ g r = b.
Proof.
  unfold astro_db.matches; simpl.
  destruct (decide (f r = a)), (decide (g r = b));
    rewrite ?bool_decide_eq_true_2, ?bool_decide_eq_false_2 by done;
    simpl; intuition congruence.
Qed.

Lemma matches_and_eq_text_false (f g : R → string) a b r :
  astro_db.matches
    (astro_db.and (astro_db.eq (text f) (Some a))
                  (astro_db.eq (text g) (Some b))) r = false
  ↔ ¬ (f r = a ∧ g r = b).
Proof.
  rewrite <- matches_and_eq_text. by destruct (astro_db.matches _ r).
Qed.

(** Comparing a column with [null] through [eq] is never true: a row
    whose column is NULL satisfies neither operand of the disjunction. *)
Lemma matches_eq_or_eq_null (f : R → option string) a r :
  astro_db.matches
    (astro_db.or (astro_db.eq (text_optional f) (Some a))
                 (astro_db.eq (text_optional f) None)) r = true
  ↔ f r = Some a.
Proof.
  unfold astro_db.matches; simpl.
  destruct (f r) as [o|]; simpl; [case_bool_decide|]; naive_solver.
Qed.
End filters.

(** ** Lists of rows with a key *)

Section keyed.
Context {R : Type} (key : R → string).
Implicit Types (l : list R) (r : R).

Lemma filter_none (P : R → Prop) `{!∀ x, Decision (P x)} l :
  (∀ x, x ∈ l → ¬ P x) → filter P l = [].
Proof.
  induction l as [|y l IH]; intros Hl; [done|].
  rewrite filter_cons_False; [|apply Hl; left].
  apply IH. intros x Hx. apply Hl. by right.
Qed.

Lemma filter_all (P : R → Prop) `{!∀ x, Decision (P x)} l :
  (∀ x, x ∈ l → P x) → filter P l = l.
Proof.
  induction l as [|y l IH]; intros Hl; [done|].
  rewrite filter_cons_True; [|apply Hl; left].
  f_equal. apply IH. intros x Hx. apply Hl. by right.
Qed.

(** With unique keys, a row splits its table into rows of other keys. *)
Lemma unique_key_split l r :
  NoDup (key <$> l) → r ∈ l →
  ∃ l1 l2, l = l1 ++ r :: l2
           ∧ (∀ x, x ∈ l1 → key x ≠ key r)
           ∧ (∀ x, x ∈ l2 → key x ≠ key r).
Proof.
  intros Hnd Hr. destruct (list_elem_of_split _ _ Hr) as (l1 & l2 & ->).
  exists l1, l2. split; [done|].
  rewrite fmap_app, fmap_cons in Hnd.
  apply NoDup_app in Hnd as (_ & Hdisj & Hnd2).
  apply NoDup_cons in Hnd2 as [Hnotin _].
  split; intros x Hx Heq.
  - apply (Hdisj (key x)); [by apply list_elem_of_fmap_2|].
    rewrite Heq. left.
  - apply Hnotin. rewrite <- Heq. by apply list_elem_of_fmap_2.
Qed.

Lemma unique_key_eq l r r' :
  NoDup (key <$> l) → r ∈ l → r' ∈ l → key r' = key r → r' = r.
Proof.
  intros Hnd Hr Hr' Heq.
  destruct (unique_key_split l r Hnd Hr) as (l1 & l2 & -> & H1 & H2).
  apply elem_of_app in Hr' as [?|Hr']; [by destruct (H1 r')|].
  apply elem_of_cons in Hr' as [?|?]; [done|by destruct (H2 r')].
Qed.

Lemma filter_unique_key (P : R → Prop) `{!∀ x, Decision (P x)} l r :
  NoDup (key <$> l) → r ∈ l → P r → (∀ x, P x → key x = key r) →
  filter P l = [r].
Proof.
  intros Hnd Hr HPr HP.
  destruct (unique_key_split l r Hnd Hr) as (l1 & l2 & -> & H1 & H2).
  rewrite filter_app, filter_cons_True by done.
  rewrite (filter_none P l1), (filter_none P l2); [done| |].
  - intros x Hx HPx. by apply (H2 x Hx), HP.
  - intros x Hx HPx. by apply (H1 x Hx), HP.
Qed.
End keyed.

(** ** Identity resolution and the two guards *)

Lemma requireUser_absent context w :
  locals context ≫= App.user = None →
  requireUser context w = (Throw unauthorized, w).
Proof. intros H. unfold requireUser. by rewrite H. Qed.

Lemma requireUser_present context user w :
  locals context ≫= App.user = Some user →
  requireUser context w = (Return user, w).
Proof. intros H. unfold requireUser. by rewrite H. Qed.

Lemma getOwnedSession_missing sessionId userId w :
  (∀ s, s ∈ sessions (db w) →
        ¬ (CaptionSessions.id s = sessionId
           ∧ CaptionSessions.userId s = userId)) →
  getOwnedSession sessionId userId w
  = (Throw session_not_found, sent (Select TCaptionSessions) (db w) w).
Proof.
  intros Hno. unfold getOwnedSession, db_select. run.
  rewrite filter_none; [done|].
  intros s Hs Hm. apply matches_and_eq_text in Hm. by apply (Hno s).
Qed.

Lemma getOwnedSession_spec sessionId userId w :
  (∃ s, getOwnedSession sessionId userId w
        = (Return s, sent (Select TCaptionSessions) (db w) w)
        ∧ s ∈ sessions (db w)
        ∧ CaptionSessions.id s = sessionId
        ∧ CaptionSessions.userId s = userId)
  ∨ (getOwnedSession sessionId userId w
     = (Throw session_not_found, sent (Select TCaptionSessions) (db w) w)
     ∧ ∀ s, s ∈ sessions (db w) →
            ¬ (CaptionSessions.id s = sessionId
               ∧ CaptionSessions.userId s = userId)).
Proof.
  unfold getOwnedSession, db_select. run.
  destruct (head (filter _ (sessions (db w)))) as [s|] eqn:Hhead.
  - left. exists s. split; [done|].
    apply head_Some_elem_of, list_elem_of_filter in Hhead as [Hm Hs].
    apply matches_and_eq_text in Hm. tauto.
  - right. split; [done|]. intros s Hs Hm.
    apply head_None in Hhead.
    assert (s ∉ sessions (db w)) as Hnot; [|done].
    eapply filter_nil_not_elem_of; [exact Hhead|].
    by apply matches_and_eq_text.
Qed.

Lemma getOwnedSession_owned sessionId userId w s :
  s ∈ sessions (db w) →
  CaptionSessions.id s = sessionId → CaptionSessions.userId s = userId →
  ∃ s', getOwnedSession sessionId userId w
        = (Return s', sent (Select TCaptionSessions) (db w) w)
        ∧ s' ∈ sessions (db w)
        ∧ CaptionSessions.id s' = sessionId
        ∧ CaptionSessions.userId s' = userId.
Proof.
  intros Hs Hid Hu.
  destruct (getOwnedSession_spec sessionId userId w) as [?|[_ Hno]]; [done|].
  by destruct (Hno s Hs).
Qed.

Lemma ensureTemplateAccessible_missing templateId userId w :
  (∀ t, t ∈ templates (db w) → CaptionTemplates.id t ≠ templateId) →
  ensureTemplateAccessible templateId userId w
  = (Throw template_not_found, sent (Select TCaptionTemplates) (db w) w).
Proof.
  intros Hno. unfold ensureTemplateAccessible, db_select. run.
  rewrite filter_none; [done|].
  intros t Ht Hm. apply matches_eq_text in Hm. by apply (Hno t).
Qed.

(** With unique template ids, the guard's answer is decided by the one row
    carrying the id. *)
Lemma ensureTemplateAccessible_found userId w t :
  unique_keys CaptionTemplatesT (db w) →
  t ∈ templates (db w) →
  ensureTemplateAccessible (CaptionTemplates.id t) userId w
  = (if truthy (CaptionTemplates.userId t)
        && bool_decide (CaptionTemplates.userId t ≠ Some userId)
     then Throw template_forbidden
     else Return t,
     sent (Select TCaptionTemplates) (db w) w).
Proof.
  intros Hnd Ht. unfold ensureTemplateAccessible, db_select. run.
  rewrite (filter_unique_key CaptionTemplates.id _ _ t); simpl.
  - by destruct (truthy _ && _).
  - done.
  - done.
  - by apply matches_eq_text.
  - intros x Hx. by apply matches_eq_text in Hx.
Qed.

(** C2. When no session row matches both the id and the acting user's id,
    [getOwnedSession] throws NOT_FOUND.  In particular a session that
    exists but belongs to somebody else and an id that names no session at
    all give the very same result: the same error, the same message and the
    same resulting world. *)
Theorem getOwnedSession_hides_foreign_sessions userId w :
  (∀ sessionId,
     (∀ s, s ∈ sessions (db w) →
           ¬ (CaptionSessions.id s = sessionId
              ∧ CaptionSessions.userId s = userId)) →
     outcome (getOwnedSession sessionId userId w) = Throw session_not_found
     ∧ db (world (getOwnedSession sessionId userId w)) = db w)
  ∧ (∀ foreign missing s,
       unique_keys CaptionSessionsT (db w) →
       s ∈ sessions (db w) →
       CaptionSessions.id s = foreign →
       CaptionSessions.userId s ≠ userId →
       (∀ s', s' ∈ sessions (db w) → CaptionSessions.id s' ≠ missing) →
       getOwnedSession foreign userId w = getOwnedSession missing userId w).
Proof.
  split.
  - intros sessionId Hno. by rewrite getOwnedSession_missing.
  - intros foreign missing s Hnd Hs Hid Hu Hmissing.
    rewrite !getOwnedSession_missing; [done| |].
    + intros s' Hs' [Hid' _]. by apply (Hmissing s').
    + intros s' Hs' [Hid' Hu']. apply Hu. rewrite <- Hu'. f_equal.
      symmetry. apply (unique_key_eq CaptionSessions.id (sessions (db w)));
        [done..|congruence].
Qed.

(** C10. A template whose stored [userId] is the empty string passes the
    guard for every acting user, exactly as an ownerless template does: the
    guard tests the owner for truthiness. *)
Theorem ensureTemplateAccessible_empty_owner userId w t :
  unique_keys CaptionTemplatesT (db w) →
  t ∈ templates (db w) →
  CaptionTemplates.userId t = Some "" →
  outcome (ensureTemplateAccessible (CaptionTemplates.id t) userId w)
  = Return t.
Proof.
  intros Hnd Ht Hu. rewrite ensureTemplateAccessible_found by done.
  by rewrite Hu.
Qed.

Lemma getOwnedSession_hides_foreign_sessions_witness :
  (outcome (getOwnedSession "s-hiring" "alice" demo) = Throw session_not_found
   ∧ db (world (getOwnedSession "s-hiring" "alice" demo)) = db demo)
  ∧ getOwnedSession "s-hiring" "alice" demo
    = getOwnedSession "s-nowhere" "alice" demo.
Proof.
  destruct (getOwnedSession_hides_foreign_sessions "alice" demo)
    as [Hmissing Hsame].
  split.
  - apply Hmissing. intros s Hs [Hid Hu].
    assert (s ∈ [launch; teaser; hiring]) as Hin by exact Hs.
    rewrite !elem_of_cons, elem_of_nil in Hin.
    destruct Hin as [->|[->|[->|[]]]]; discriminate.
  - apply (Hsame "s-hiring" "s-nowhere" hiring).
    + decide_closed.
    + decide_closed.
    + reflexivity.
    + discriminate.
    + intros s Hs Hid.
      assert (s ∈ [launch; teaser; hiring]) as Hin by exact Hs.
      rewrite !elem_of_cons, elem_of_nil in Hin.
      destruct Hin as [->|[->|[->|[]]]]; discriminate.
Defined.

Lemma ensureTemplateAccessible_empty_owner_witness :
  outcome (ensureTemplateAccessible "t-blank" "bob" demo) = Return t_blank.
Proof.
  apply (ensureTemplateAccessible_empty_owner "bob" demo t_blank).
  - decide_closed.
  - decide_closed.
  - reflexivity.
Defined.

(** C3, as the specification words it, fails on an owner that is present
    but empty: the owner differs from the acting user, yet the guard lets
    the request through. *)
Lemma ensureTemplateAccessible_empty_owner_not_forbidden :
  ¬ (∀ templateId userId w t owner,
       unique_keys CaptionTemplatesT (db w) →
       t ∈ templates (db w) →
       CaptionTemplates.id t = templateId →
       CaptionTemplates.userId t = Some owner →
       owner ≠ userId →
       outcome (ensureTemplateAccessible templateId userId w)
       = Throw template_forbidden).
Proof.
  intros Hclaim.
  assert (outcome (ensureTemplateAccessible "t-blank" "bob" demo)
          = Throw template_forbidden) as Hbad.
  { apply (Hclaim "t-blank" "bob" demo t_blank "").
    - decide_closed.
    - decide_closed.
    - reflexivity.
    - reflexivity.
    - discriminate. }
  vm_compute in Hbad. discriminate.
Qed.

(** C3 (amended). [ensureTemplateAccessible] throws NOT_FOUND when no
    template carries the id; throws FORBIDDEN when the template has a
    non-empty owner other than the acting user; and returns the template
    when its owner is null, is the empty string, or is the acting user.
    The store is left as it was in every case. *)
Theorem ensureTemplateAccessible_cases templateId userId w :
  unique_keys CaptionTemplatesT (db w) →
  ((∀ t, t ∈ templates (db w) → CaptionTemplates.id t ≠ templateId) →
   outcome (ensureTemplateAccessible templateId userId w)
   = Throw template_not_found)
  ∧ (∀ t owner,
       t ∈ templates (db w) → CaptionTemplates.id t = templateId →
       CaptionTemplates.userId t = Some owner →
       owner ≠ "" → owner ≠ userId →
       outcome (ensureTemplateAccessible templateId userId w)
       = Throw template_forbidden)
  ∧ (∀ t,
       t ∈ templates (db w) → CaptionTemplates.id t = templateId →
       CaptionTemplates.userId t = None
       ∨ CaptionTemplates.userId t = Some ""
       ∨ CaptionTemplates.userId t = Some userId →
       outcome (ensureTemplateAccessible templateId userId w) = Return t)
  ∧ db (world (ensureTemplateAccessible templateId userId w)) = db w.
Proof.
  intros Hnd. split; [|split; [|split]].
  - intros Hno. by rewrite ensureTemplateAccessible_missing.
  - intros t owner Ht <- Ho Hne Hdiff.
    rewrite ensureTemplateAccessible_found, Ho by done. simpl.
    rewrite bool_decide_eq_false_2 by done.
    rewrite bool_decide_eq_true_2 by congruence. done.
  - intros t Ht <- Ho.
    rewrite ensureTemplateAccessible_found by done.
    destruct Ho as [->|[->| ->]]; simpl; [done..|].
    rewrite (bool_decide_eq_false_2 (Some userId ≠ Some userId)) by auto.
    by rewrite andb_false_r.
  - unfold ensureTemplateAccessible, db_select. run.
    by destruct (head _) as [t|]; [destruct (truthy _ && _)|].
Qed.

Lemma ensureTemplateAccessible_cases_witness :
  outcome (ensureTemplateAccessible "t-nowhere" "alice" demo)
  = Throw template_not_found
  ∧ outcome (ensureTemplateAccessible "t-bob" "alice" demo)
    = Throw template_forbidden
  ∧ outcome (ensureTemplateAccessible "t-global" "alice" demo)
    = Return t_global
  ∧ outcome (ensureTemplateAccessible "t-alice" "alice" demo)
    = Return t_alice.
Proof.
  assert (unique_keys CaptionTemplatesT (db demo)) as Hnd by decide_closed.
  split; [|split; [|split]].
  - apply (ensureTemplateAccessible_cases "t-nowhere" "alice" demo Hnd).
    intros t Ht.
    assert (t ∈ [t_global; t_alice; t_bob; t_blank]) as Hin by exact Ht.
    rewrite !elem_of_cons, elem_of_nil in Hin.
    destruct Hin as [->|[->|[->|[->|[]]]]]; discriminate.
  - destruct (ensureTemplateAccessible_cases "t-bob" "alice" demo Hnd)
      as (_ & Hforbidden & _).
    apply (Hforbidden t_bob "bob");
      [decide_closed|reflexivity|reflexivity|discriminate|discriminate].
  - destruct (ensureTemplateAccessible_cases "t-global" "alice" demo Hnd)
      as (_ & _ & Hreturned & _).
    apply (Hreturned t_global); [decide_closed|reflexivity|by left].
  - destruct (ensureTemplateAccessible_cases "t-alice" "alice" demo Hnd)
      as (_ & _ & Hreturned & _).
    apply (Hreturned t_alice); [decide_closed|reflexivity|by right; right].
Defined.

(** ** Handlers *)

(** C9. Every handler resolves the identity first: without an authenticated
    user in the request context it throws UNAUTHORIZED and the world is
    exactly the one it started from, so no statement reached the store. *)
Theorem handlers_require_user context w :
  locals context ≫= App.user = None →
  (∀ input, server.createCaptionSession_handler input context w
            = (Throw unauthorized, w))
  ∧ (∀ input, server.updateCaptionSession_handler input context w
              = (Throw unauthorized, w))
  ∧ (∀ input, server.listCaptionSessions_handler input context w
              = (Throw unauthorized, w))
  ∧ (∀ input, server.createCaption_handler input context w
              = (Throw unauthorized, w))
  ∧ (∀ input, server.updateCaption_handler input context w
              = (Throw unauthorized, w))
  ∧ (∀ input, server.deleteCaption_handler input context w
              = (Throw unauthorized, w))
  ∧ (∀ input, server.listCaptions_handler input context w
              = (Throw unauthorized, w))
  ∧ (∀ input, server.createTemplate_handler input context w
              = (Throw unauthorized, w))
  ∧ (∀ input, server.listTemplates_handler input context w
              = (Throw unauthorized, w)).
Proof.
  intros Habsent.
  repeat match goal with |- _ ∧ _ => split end; intros input.
  - unfold server.createCaptionSession_handler, mbind, Async_bind, await.
    by rewrite requireUser_absent.
  - unfold server.updateCaptionSession_handler, mbind, Async_bind, await.
    by rewrite requireUser_absent.
  - unfold server.listCaptionSessions_handler, mbind, Async_bind, await.
    by rewrite requireUser_absent.
  - unfold server.createCaption_handler, mbind, Async_bind, await.
    by rewrite requireUser_absent.
  - unfold server.updateCaption_handler, mbind, Async_bind, await.
    by rewrite requireUser_absent.
  - unfold server.deleteCaption_handler, mbind, Async_bind, await.
    by rewrite requireUser_absent.
  - unfold server.listCaptions_handler, mbind, Async_bind, await.
    by rewrite requireUser_absent.
  - unfold server.createTemplate_handler, mbind, Async_bind, await.
    by rewrite requireUser_absent.
  - unfold server.listTemplates_handler, mbind, Async_bind, await.
    by rewrite requireUser_absent.
Qed.

Lemma handlers_require_user_witness :
  (∀ input, server.createCaptionSession_handler input signed_out demo
            = (Throw unauthorized, demo))
  ∧ (∀ input, server.deleteCaption_handler input anonymous demo
              = (Throw unauthorized, demo)).
Proof.
  split.
  - apply (handlers_require_user signed_out demo). reflexivity.
  - apply (handlers_require_user anonymous demo). reflexivity.
Defined.

(** C5. A request to [updateCaptionSession] or [updateCaption] that carries
    none of the updatable fields is refused by input validation: the action
    throws BAD_REQUEST and the world, hence every stored row and the journal
    of statements, is the one it started from. *)
Theorem update_without_fields_rejected raw context w :
  (absent "name" raw → absent "description" raw →
   absent "coreMessage" raw → absent "targetAudience" raw →
   server.updateCaptionSession raw context w = (Throw invalid_input, w))
  ∧ (absent "platform" raw → absent "tone" raw →
     absent "variantLabel" raw → absent "captionText" raw →
     absent "hashtags" raw →
     server.updateCaption raw context w = (Throw invalid_input, w)).
Proof.
  unfold absent. split.
  - intros Hn Hd Hc Ht.
    unfold server.updateCaptionSession, defineAction.
    replace (server.updateCaptionSession_input raw) with
      (@None UpdateCaptionSessionInput.t); [done|].
    unfold server.updateCaptionSession_input, z.refine.
    destruct raw as [o|]; simpl in *; [|done].
    rewrite Hn, Hd, Hc, Ht. simpl.
    by destruct (z.min 1 z.string (o !! "id")).
  - intros Hp Ht Hv Hc Hh.
    unfold server.updateCaption, defineAction.
    replace (server.updateCaption_input raw) with
      (@None UpdateCaptionInput.t); [done|].
    unfold server.updateCaption_input, z.refine.
    destruct raw as [o|]; simpl in *; [|done].
    rewrite Hp, Ht, Hv, Hc, Hh. simpl.
    destruct (z.min 1 z.string (o !! "id")); simpl; [|done].
    by destruct (z.min 1 z.string (o !! "sessionId")).
Qed.

Lemma update_without_fields_rejected_witness :
  server.updateCaptionSession rename_nothing alice demo
  = (Throw invalid_input, demo)
  ∧ server.updateCaption retouch_nothing alice demo
    = (Throw invalid_input, demo).
Proof.
  split.
  - apply (update_without_fields_rejected rename_nothing alice demo);
      compute_done.
  - apply (update_without_fields_rejected retouch_nothing alice demo);
      compute_done.
Defined.

Lemma createTemplate_input_ignores_isSystem raw v :
  server.createTemplate_input (<["isSystem" := v]> <$> raw)
  = server.createTemplate_input raw.
Proof.
  unfold server.createTemplate_input. destruct raw as [o|]; [simpl|done].
  by rewrite !lookup_insert_ne by done.
Qed.

(** C7. Whatever the request carries, a template persisted by
    [createTemplate] has [isSystem = false] and belongs to the acting user:
    an [isSystem] key in the request changes nothing at all, a successful
    call appends exactly one such row, and a failed call leaves the store
    as it was. *)
Theorem createTemplate_forces_owner_and_isSystem raw context w :
  (∀ v, server.createTemplate (<["isSystem" := v]> <$> raw) context w
        = server.createTemplate raw context w)
  ∧ (∀ e w',
       server.createTemplate raw context w = (Return e, w') →
       ∃ user t,
         locals context ≫= App.user = Some user
         ∧ e = mkEnvelope true (Some t)
         ∧ CaptionTemplates.isSystem t = false
         ∧ CaptionTemplates.userId t = Some (App.id user)
         ∧ db w' = mkDb (sessions (db w)) (captions (db w))
                        (templates (db w) ++ [t]))
  ∧ (∀ e w',
       server.createTemplate raw context w = (Throw e, w') → db w' = db w).
Proof.
  split; [|split].
  - intros v. unfold server.createTemplate, defineAction.
    by rewrite createTemplate_input_ignores_isSystem.
  - intros e w'. unfold server.createTemplate, defineAction.
    destruct (server.createTemplate_input raw) as [input|]; [|done].
    unfold server.createTemplate_handler, requireUser.
    destruct (locals context ≫= App.user) as [user|]; [|done].
    unfold randomUUID, new_Date, db_insert. run.
    case_bool_decide; [done|].
    intros [= <- <-]. by eexists user, _.
  - intros e w'. unfold server.createTemplate, defineAction.
    destruct (server.createTemplate_input raw) as [input|];
      [|by intros [= <- <-]].
    unfold server.createTemplate_handler, requireUser.
    destruct (locals context ≫= App.user) as [user|]; [|by intros [= <- <-]].
    unfold randomUUID, new_Date, db_insert. run.
    case_bool_decide; [|done].
    by intros [= <- <-].
Qed.

Lemma createTemplate_forces_owner_and_isSystem_witness :
  ∃ t, outcome (server.createTemplate promo_template alice demo)
       = Return (mkEnvelope true (Some t))
       ∧ CaptionTemplates.isSystem t = false
       ∧ CaptionTemplates.userId t = Some "alice"
       ∧ t ∈ templates (db (world (server.createTemplate promo_template
                                     alice demo))).
Proof.
  destruct (createTemplate_forces_owner_and_isSystem promo_template alice demo)
    as (_ & Hok & _).
  destruct (Hok _ _ eq_refl) as (user & t & Huser & He & Hsys & Hown & Hdb).
  exists t. injection Huser as <-. injection He as <-.
  repeat split. compute_done.
Defined.

(** ** Listing *)

(** What [listTemplates] returns on a body that passes validation: the
    acting user's own templates, in table order, and their number. *)
Lemma listTemplates_returns_owned_only raw context user w :
  object_or_undefined raw →
  locals context ≫= App.user = Some user →
  server.listTemplates raw context w
  = (Return
       (mkEnvelope true
          (mkListing
             (filter (λ t, CaptionTemplates.userId t = Some (App.id user))
                     (templates (db w)))
             (length
                (filter (λ t, CaptionTemplates.userId t = Some (App.id user))
                        (templates (db w)))))),
     sent (Select TCaptionTemplates) (db w) w).
Proof.
  intros Hbody Huser.
  unfold server.listTemplates, defineAction.
  replace (server.listTemplates_input raw) with (Some ())
    by (by destruct raw as [[o|items|v]|]).
  unfold server.listTemplates_handler, mbind, Async_bind, await.
  rewrite (requireUser_present _ user) by done.
  unfold db_select, resolve; simpl.
  by rewrite (list_filter_iff _
    (λ t, CaptionTemplates.userId t = Some (App.id user)))
    by (intros t; apply matches_eq_or_eq_null).
Qed.

(** C1 (the code departs from it). On a store holding the global template
    [t_global] (its [userId] is NULL), [listTemplates] under alice's
    identity returns her own template only: the ownerless one is left out,
    because the filter compares the column with [null] through [eq]. *)
Theorem listTemplates_omits_global_templates :
  t_global ∈ templates (db demo)
  ∧ CaptionTemplates.userId t_global = None
  ∧ outcome (server.listTemplates None alice demo)
    = Return (mkEnvelope true (mkListing [t_alice] 1)).
Proof. split; [compute_done|]. split; reflexivity. Qed.

(** ** Captions are addressed through their own session *)

Lemma no_caption_under_other_session w c captionId sessionId :
  unique_keys CaptionsT (db w) →
  c ∈ captions (db w) →
  Captions.id c = captionId →
  Captions.sessionId c ≠ sessionId →
  ∀ x, x ∈ captions (db w) →
       ¬ (Captions.id x = captionId ∧ Captions.sessionId x = sessionId).
Proof.
  intros Hnd Hc Hid Hother x Hx [Hxid Hxs].
  assert (x = c) as ->; [|done].
  apply (unique_key_eq Captions.id (captions (db w))); [done..|congruence].
Qed.

(** C4. Let caption [c] be stored, and let the request name [c]'s id
    together with a different session that the acting user owns (so the
    session guard passes).  Then [updateCaption] and [deleteCaption] both
    throw NOT_FOUND and the store is the one they started from; [c] is
    neither changed nor removed. *)
Theorem caption_under_another_session_not_found context user w c other :
  unique_keys CaptionsT (db w) →
  locals context ≫= App.user = Some user →
  c ∈ captions (db w) →
  other ∈ sessions (db w) →
  CaptionSessions.userId other = App.id user →
  CaptionSessions.id other ≠ Captions.sessionId c →
  (∀ raw input,
     server.updateCaption_input raw = Some input →
     UpdateCaptionInput.id input = Captions.id c →
     UpdateCaptionInput.sessionId input = CaptionSessions.id other →
     outcome (server.updateCaption raw context w) = Throw caption_not_found
     ∧ db (world (server.updateCaption raw context w)) = db w)
  ∧ (∀ raw input,
       server.deleteCaption_input raw = Some input →
       DeleteCaptionInput.id input = Captions.id c →
       DeleteCaptionInput.sessionId input = CaptionSessions.id other →
       outcome (server.deleteCaption raw context w) = Throw caption_not_found
       ∧ db (world (server.deleteCaption raw context w)) = db w).
Proof.
  intros Hnd Huser Hc Hother Hown Hdiff. split.
  - intros raw input Hparse Hid Hsid.
    unfold server.updateCaption, defineAction. rewrite Hparse.
    unfold server.updateCaption_handler, mbind, Async_bind, await.
    rewrite (requireUser_present _ user) by done.
    destruct (getOwnedSession_owned (UpdateCaptionInput.sessionId input)
                (App.id user) w other) as (s' & -> & _); [done..|].
    unfold db_select; simpl.
    rewrite filter_none; [done|].
    intros x Hx Hm. apply matches_and_eq_text in Hm.
    eapply (no_caption_under_other_session w c); [done..| |exact Hx|exact Hm].
    congruence.
  - intros raw input Hparse Hid Hsid.
    unfold server.deleteCaption, defineAction. rewrite Hparse.
    unfold server.deleteCaption_handler, mbind, Async_bind, await.
    rewrite (requireUser_present _ user) by done.
    destruct (getOwnedSession_owned (DeleteCaptionInput.sessionId input)
                (App.id user) w other) as (s' & -> & _); [done..|].
    unfold db_delete; simpl.
    assert (∀ x, x ∈ captions (db w) →
              astro_db.matches
                (astro_db.and
                   (astro_db.eq (text Captions.id)
                      (Some (DeleteCaptionInput.id input)))
                   (astro_db.eq (text Captions.sessionId)
                      (Some (DeleteCaptionInput.sessionId input)))) x
              = false) as Hnone.
    { intros x Hx. apply matches_and_eq_text_false.
      eapply (no_caption_under_other_session w c); [done..| |exact Hx].
      congruence. }
    rewrite filter_none, filter_all; simpl.
    + split; [done|]. by destruct (db w).
    + done.
    + intros x Hx. by rewrite Hnone.
Qed.

Lemma caption_under_another_session_not_found_witness :
  (outcome (server.updateCaption retouch_elsewhere alice demo)
   = Throw caption_not_found
   ∧ db (world (server.updateCaption retouch_elsewhere alice demo)) = db demo)
  ∧ (outcome (server.deleteCaption remove_elsewhere alice demo)
     = Throw caption_not_found
     ∧ db (world (server.deleteCaption remove_elsewhere alice demo))
       = db demo).
Proof.
  destruct (caption_under_another_session_not_found
              alice (App.mkUser "alice") demo launch_a teaser)
    as [Hupdate Hdelete].
  - decide_closed.
  - reflexivity.
  - decide_closed.
  - decide_closed.
  - reflexivity.
  - discriminate.
  - split.
    + apply (Hupdate retouch_elsewhere
               (UpdateCaptionInput.mk "c-launch-a" "s-teaser" None
                  (Some "fun") None None None)); compute_done.
    + apply (Hdelete remove_elsewhere
               (DeleteCaptionInput.mk "c-launch-a" "s-teaser")); compute_done.
Defined.

(** ** Partial update of a session *)

Lemma update_unique_row {R} (hit : R → bool) (g : R → R) (l1 l2 : list R) r :
  hit r = true →
  (∀ x, x ∈ l1 → hit x = false) →
  (∀ x, x ∈ l2 → hit x = false) →
  (λ x, if hit x then g x else x) <$> (l1 ++ r :: l2) = l1 ++ g r :: l2
  ∧ filter (λ x, hit x = true) (l1 ++ r :: l2) = [r].
Proof.
  intros Hr H1 H2.
  assert (∀ l : list R, (∀ x, x ∈ l → hit x = false) →
               (λ x, if hit x then g x else x) <$> l = l) as Hsame.
  { induction l as [|y l IH]; intros Hl; [done|]. simpl.
    rewrite (Hl y) by left. f_equal. apply IH. intros x Hx. apply Hl.
    by right. }
  split.
  - rewrite fmap_app, fmap_cons, Hr, !Hsame by done. done.
  - rewrite filter_app, filter_cons_True by done.
    rewrite (filter_none _ l1), (filter_none _ l2); [done| |];
      intros x Hx Hhit; [rewrite (H2 x Hx) in Hhit|rewrite (H1 x Hx) in Hhit];
      discriminate.
Qed.

(** C8. A successful [updateCaptionSession] rewrites one row, the acting
    user's session with the requested id, and nothing else in the store.
    In the new row every field the request supplied has the supplied value,
    every field it did not supply (and [id], [userId], [createdAt], which
    cannot be supplied) has its previous value, and [updatedAt] is the
    current time; the new row is the one returned. *)
Theorem updateCaptionSession_partial_update raw input context w e w' :
  unique_keys CaptionSessionsT (db w) →
  server.updateCaptionSession_input raw = Some input →
  server.updateCaptionSession raw context w = (Return e, w') →
  ∃ user before old after new,
    locals context ≫= App.user = Some user
    ∧ sessions (db w) = before ++ old :: after
    ∧ CaptionSessions.id old = UpdateCaptionSessionInput.id input
    ∧ CaptionSessions.userId old = App.id user
    ∧ e = mkEnvelope true (Some new)
    ∧ db w' = mkDb (before ++ new :: after) (captions (db w))
                   (templates (db w))
    ∧ CaptionSessions.id new = CaptionSessions.id old
    ∧ CaptionSessions.userId new = CaptionSessions.userId old
    ∧ CaptionSessions.createdAt new = CaptionSessions.createdAt old
    ∧ CaptionSessions.updatedAt new = clock w
    ∧ CaptionSessions.name new
      = default (CaptionSessions.name old)
                (UpdateCaptionSessionInput.name input)
    ∧ CaptionSessions.description new
      = from_option Some (CaptionSessions.description old)
                    (UpdateCaptionSessionInput.description input)
    ∧ CaptionSessions.coreMessage new
      = from_option Some (CaptionSessions.coreMessage old)
                    (UpdateCaptionSessionInput.coreMessage input)
    ∧ CaptionSessions.targetAudience new
      = from_option Some (CaptionSessions.targetAudience old)
                    (UpdateCaptionSessionInput.targetAudience input).
Proof.
  intros Hnd Hparse.
  unfold server.updateCaptionSession, defineAction. rewrite Hparse.
  unfold server.updateCaptionSession_handler, mbind, Async_bind, await.
  unfold requireUser.
  destruct (locals context ≫= App.user) as [user|] eqn:Huser; [|done].
  unfold resolve at 1.
  destruct (getOwnedSession_spec (UpdateCaptionSessionInput.id input)
              (App.id user) w) as [(old & -> & Hold & Hid & Hown)|[-> _]];
    [|done].
  destruct (unique_key_split CaptionSessions.id (sessions (db w)) old Hnd Hold)
    as (before & after & Hsplit & Hbefore & Hafter).
  destruct (update_unique_row
              (astro_db.matches
                 (astro_db.eq (text CaptionSessions.id)
                    (Some (UpdateCaptionSessionInput.id input))))
              (apply_set
                 (spread (UpdateCaptionSessionInput.name input)
                    CaptionSessions.set_name
                  ++ spread (UpdateCaptionSessionInput.description input)
                       CaptionSessions.set_description
                  ++ spread (UpdateCaptionSessionInput.coreMessage input)
                       CaptionSessions.set_coreMessage
                  ++ spread (UpdateCaptionSessionInput.targetAudience input)
                       CaptionSessions.set_targetAudience
                  ++ [CaptionSessions.set_updatedAt (clock w)]))
              before after old) as [Hmap Hfilter].
  { by apply matches_eq_text. }
  { intros x Hx. apply matches_eq_text_false. rewrite <- Hid. by apply Hbefore. }
  { intros x Hx. apply matches_eq_text_false. rewrite <- Hid. by apply Hafter. }
  unfold new_Date, db_update, resolve; simpl.
  rewrite Hsplit, Hmap, Hfilter.
  destruct input as [iid [iname|] [idescription|] [icore|] [iaudience|]];
    simpl; intros [= <- <-]; eexists user, before, old, after, _;
    simpl; (repeat match goal with |- _ ∧ _ => split end);
    first [exact Huser | done].
Qed.

Lemma updateCaptionSession_partial_update_witness :
  ∃ new,
    outcome (server.updateCaptionSession rename_launch alice demo)
    = Return (mkEnvelope true (Some new))
    ∧ CaptionSessions.updatedAt new = 100%Z
    ∧ CaptionSessions.name new = "Launch week".
Proof.
  edestruct (updateCaptionSession_partial_update rename_launch
               (UpdateCaptionSessionInput.mk "s-launch" (Some "Launch week")
                  None None (Some "early adopters"))
               alice demo)
    as (user & before & old & after & new & _ & _ & _ & _ & He & _ & _ & _
        & _ & Hupdated & Hname & _);
    [decide_closed|compute_done|reflexivity|].
  exists new. split; [|split].
  - by rewrite <- He.
  - exact Hupdated.
  - exact Hname.
Defined.

(** A request by the owner that passes validation does succeed. *)
Lemma updateCaptionSession_succeeds raw input context user w s :
  server.updateCaptionSession_input raw = Some input →
  locals context ≫= App.user = Some user →
  s ∈ sessions (db w) →
  CaptionSessions.id s = UpdateCaptionSessionInput.id input →
  CaptionSessions.userId s = App.id user →
  ∃ e w', server.updateCaptionSession raw context w = (Return e, w').
Proof.
  intros Hparse Huser Hs Hid Hown.
  unfold server.updateCaptionSession, defineAction. rewrite Hparse.
  unfold server.updateCaptionSession_handler, mbind, Async_bind, await.
  rewrite (requireUser_present _ user) by done.
  destruct (getOwnedSession_owned (UpdateCaptionSessionInput.id input)
              (App.id user) w s) as (s' & -> & _); [done..|].
  unfold new_Date, db_update, resolve; simpl.
  destruct input as [iid [iname|] [idescription|] [icore|] [iaudience|]];
    simpl; by eexists _, _.
Qed.

(** ** The template gate of [createCaption] *)

Lemma ensureTemplateAccessible_spec templateId userId w :
  unique_keys CaptionTemplatesT (db w) →
  (ensureTemplateAccessible templateId userId w
   = (Throw template_not_found, sent (Select TCaptionTemplates) (db w) w)
   ∧ ∀ t, t ∈ templates (db w) → CaptionTemplates.id t ≠ templateId)
  ∨ (∃ t, t ∈ templates (db w)
          ∧ CaptionTemplates.id t = templateId
          ∧ ensureTemplateAccessible templateId userId w
            = (if truthy (CaptionTemplates.userId t)
                  && bool_decide (CaptionTemplates.userId t ≠ Some userId)
               then Throw template_forbidden
               else Return t,
               sent (Select TCaptionTemplates) (db w) w)).
Proof.
  intros Hnd.
  destruct (head (filter (λ t, CaptionTemplates.id t = templateId)
                         (templates (db w)))) as [t|] eqn:Hhead.
  - right. exists t.
    apply head_Some_elem_of, list_elem_of_filter in Hhead as [<- Ht].
    split; [done|]. split; [done|].
    by apply ensureTemplateAccessible_found.
  - left. apply head_None in Hhead.
    assert (∀ t, t ∈ templates (db w) → CaptionTemplates.id t ≠ templateId)
      as Hnone.
    { intros t Ht Hid. revert Ht. by eapply filter_nil_not_elem_of. }
    split; [|done]. by apply ensureTemplateAccessible_missing.
Qed.

Lemma truthy_nonempty s : s ≠ "" → truthy (Some s) = true.
Proof. intros Hs. unfold truthy. by rewrite bool_decide_eq_false_2. Qed.

Lemma guard_passes_iff (owner : option string) userId :
  truthy owner && bool_decide (owner ≠ Some userId) = false
  ↔ owner = None ∨ owner = Some "" ∨ owner = Some userId.
Proof.
  destruct owner as [o|]; simpl; [|split; [by left|done]].
  destruct (decide (o = "")) as [Hempty|Hne].
  - rewrite (bool_decide_eq_true_2 (o = "")) by done. simpl.
    split; [intros _; right; left; by subst|done].
  - rewrite (bool_decide_eq_false_2 (o = "")) by done. simpl.
    destruct (decide (Some o = Some userId)) as [Heq|Hdiff].
    + rewrite bool_decide_eq_false_2 by auto.
      split; [intros _; by right; right|done].
    + rewrite bool_decide_eq_true_2 by done.
      split; [done|]. intros [?|[?|?]]; congruence.
Qed.

(** C6, as the specification words it, fails on a [templateId] that is
    supplied but empty: no template carries that id, yet no NOT_FOUND is
    thrown, because the handler skips the gate on a falsy [templateId]. *)
Lemma createCaption_empty_templateId_not_checked :
  ¬ (∀ raw input context user w templateId s,
       server.createCaption_input raw = Some input →
       locals context ≫= App.user = Some user →
       s ∈ sessions (db w) →
       CaptionSessions.id s = CreateCaptionInput.sessionId input →
       CaptionSessions.userId s = App.id user →
       CreateCaptionInput.templateId input = Some templateId →
       (∀ t, t ∈ templates (db w) → CaptionTemplates.id t ≠ templateId) →
       outcome (server.createCaption raw context w)
       = Throw template_not_found).
Proof.
  intros Hclaim.
  assert (outcome (server.createCaption (caption_with_template "") alice demo)
          = Throw template_not_found) as Hbad.
  { apply (Hclaim (caption_with_template "")
             (CreateCaptionInput.mk "s-launch" None None None
                "Fresh out of the oven" None (Some ""))
             alice (App.mkUser "alice") demo "" launch).
    - compute_done.
    - reflexivity.
    - decide_closed.
    - reflexivity.
    - reflexivity.
    - reflexivity.
    - intros t Ht.
      assert (t ∈ [t_global; t_alice; t_bob; t_blank]) as Hin by exact Ht.
      rewrite !elem_of_cons, elem_of_nil in Hin.
      destruct Hin as [->|[->|[->|[->|[]]]]]; discriminate. }
  vm_compute in Hbad. discriminate.
Qed.

(** C6 (amended). Let a [createCaption] request that passes validation,
    made by the owner of the session it names, carry a non-empty
    [templateId].  If no template has that id the action
    throws NOT_FOUND; if the template has a non-empty owner other than the
    acting user it throws FORBIDDEN; in both cases the store is unchanged
    and the only statements sent are the two guard queries, so no caption
    was inserted.  If the action succeeds, the template exists and passes
    the guard, exactly one caption is appended, and its [captionText] is the
    request's [captionText]: the template body is not merged into it. *)
Theorem createCaption_template_gate raw input context user w templateId s :
  unique_keys CaptionTemplatesT (db w) →
  server.createCaption_input raw = Some input →
  locals context ≫= App.user = Some user →
  s ∈ sessions (db w) →
  CaptionSessions.id s = CreateCaptionInput.sessionId input →
  CaptionSessions.userId s = App.id user →
  CreateCaptionInput.templateId input = Some templateId →
  templateId ≠ "" →
  ((∀ t, t ∈ templates (db w) → CaptionTemplates.id t ≠ templateId) →
   outcome (server.createCaption raw context w) = Throw template_not_found
   ∧ db (world (server.createCaption raw context w)) = db w
   ∧ journal (world (server.createCaption raw context w))
     = journal w ++ [Select TCaptionSessions; Select TCaptionTemplates])
  ∧ (∀ t owner,
       t ∈ templates (db w) → CaptionTemplates.id t = templateId →
       CaptionTemplates.userId t = Some owner →
       owner ≠ "" → owner ≠ App.id user →
       outcome (server.createCaption raw context w) = Throw template_forbidden
       ∧ db (world (server.createCaption raw context w)) = db w
       ∧ journal (world (server.createCaption raw context w))
         = journal w ++ [Select TCaptionSessions; Select TCaptionTemplates])
  ∧ (∀ e,
       outcome (server.createCaption raw context w) = Return e →
       ∃ t c,
         t ∈ templates (db w)
         ∧ CaptionTemplates.id t = templateId
         ∧ (CaptionTemplates.userId t = None
            ∨ CaptionTemplates.userId t = Some ""
            ∨ CaptionTemplates.userId t = Some (App.id user))
         ∧ e = mkEnvelope true (Some c)
         ∧ Captions.captionText c = CreateCaptionInput.captionText input
         ∧ Captions.sessionId c = CreateCaptionInput.sessionId input
         ∧ db (world (server.createCaption raw context w))
           = mkDb (sessions (db w)) (captions (db w) ++ [c])
                  (templates (db w))).
Proof.
  intros Hnd Hparse Huser Hs Hid Hown Htid Hne.
  unfold server.createCaption, defineAction. rewrite Hparse.
  unfold server.createCaption_handler, mbind, Async_bind, await.
  rewrite (requireUser_present _ user) by done.
  destruct (getOwnedSession_owned (CreateCaptionInput.sessionId input)
              (App.id user) w s) as (s' & -> & _); [done..|].
  rewrite Htid, (truthy_nonempty templateId) by done.
  set (w1 := sent (Select TCaptionSessions) (db w) w).
  assert (unique_keys CaptionTemplatesT (db w1)) as Hnd1 by done.
  split; [|split].
  - intros Hnone.
    rewrite (ensureTemplateAccessible_missing templateId (App.id user) w1)
      by done.
    simpl. by rewrite <- app_assoc.
  - intros t owner Ht <- Ho Howner Hdiff.
    rewrite (ensureTemplateAccessible_found (App.id user) w1 t) by done.
    rewrite Ho, (truthy_nonempty owner) by done.
    rewrite bool_decide_eq_true_2 by congruence.
    simpl. by rewrite <- app_assoc.
  - intros e.
    destruct (ensureTemplateAccessible_spec templateId (App.id user) w1 Hnd1)
      as [[-> _]|(t & Ht & Htid' & ->)]; [done|].
    destruct (truthy (CaptionTemplates.userId t) && _) eqn:Hguard; [done|].
    apply guard_passes_iff in Hguard.
    unfold resolve, randomUUID, new_Date, db_insert; simpl.
    case_bool_decide; [done|]. simpl.
    intros [= <-]. by eexists t, _.
Qed.

Lemma createCaption_template_gate_witness :
  outcome (server.createCaption (caption_with_template "t-nowhere") alice demo)
  = Throw template_not_found
  ∧ outcome (server.createCaption (caption_with_template "t-bob") alice demo)
    = Throw template_forbidden
  ∧ ∃ c, outcome (server.createCaption (caption_with_template "t-alice")
                    alice demo)
         = Return (mkEnvelope true (Some c))
         ∧ Captions.captionText c = "Fresh out of the oven".
Proof.
  assert (unique_keys CaptionTemplatesT (db demo)) as Hnd by decide_closed.
  split; [|split].
  - edestruct (createCaption_template_gate
                 (caption_with_template "t-nowhere")
                 (CreateCaptionInput.mk "s-launch" None None None
                    "Fresh out of the oven" None (Some "t-nowhere"))
                 alice (App.mkUser "alice") demo "t-nowhere" launch Hnd)
      as (Hmissing & _);
      [compute_done|reflexivity|decide_closed|reflexivity|reflexivity
      |reflexivity|discriminate|].
    apply Hmissing. intros t Ht.
    assert (t ∈ [t_global; t_alice; t_bob; t_blank]) as Hin by exact Ht.
    rewrite !elem_of_cons, elem_of_nil in Hin.
    destruct Hin as [->|[->|[->|[->|[]]]]]; discriminate.
  - edestruct (createCaption_template_gate
                 (caption_with_template "t-bob")
                 (CreateCaptionInput.mk "s-launch" None None None
                    "Fresh out of the oven" None (Some "t-bob"))
                 alice (App.mkUser "alice") demo "t-bob" launch Hnd)
      as (_ & Hforbidden & _);
      [compute_done|reflexivity|decide_closed|reflexivity|reflexivity
      |reflexivity|discriminate|].
    apply (Hforbidden t_bob "bob");
      [decide_closed|reflexivity|reflexivity|discriminate|discriminate].
  - edestruct (createCaption_template_gate
                 (caption_with_template "t-alice")
                 (CreateCaptionInput.mk "s-launch" None None None
                    "Fresh out of the oven" None (Some "t-alice"))
                 alice (App.mkUser "alice") demo "t-alice" launch Hnd)
      as (_ & _ & Hsuccess);
      [compute_done|reflexivity|decide_closed|reflexivity|reflexivity
      |reflexivity|discriminate|].
    edestruct Hsuccess as (t & c & _ & _ & _ & He & Htext & _);
      [reflexivity|].
    exists c. split; [by rewrite <- He|exact Htext].
Defined.

(** ** The primary keys stay unique

    The hypotheses [unique_keys] above are an invariant of the store: the
    empty store has it, and every action keeps it, whatever the request and
    however the action ends. *)

Section invariant.

Lemma empty_db_well_keyed : well_keyed empty_db.
Proof. repeat split; apply NoDup_nil_2. Qed.

Lemma keeps_resolve {A} (a : A) : keeps_keys (resolve a).
Proof. by intros w Hw. Qed.

Lemma keeps_throw {A} e : keeps_keys (@throw A e).
Proof. by intros w Hw. Qed.

Lemma keeps_await {A B} (m : Async A) (k : A → Async B) :
  keeps_keys m → (∀ a, keeps_keys (k a)) → keeps_keys (m ≫= k).
Proof.
  intros Hm Hk w Hw. unfold mbind, Async_bind, await.
  specialize (Hm w Hw). destruct (m w) as [[a|e] w1]; [|done].
  by apply Hk.
Qed.

Lemma keeps_new_Date : keeps_keys new_Date.
Proof. by intros w Hw. Qed.

Lemma keeps_randomUUID : keeps_keys randomUUID.
Proof. by intros w Hw. Qed.

Lemma keeps_requireUser context : keeps_keys (requireUser context).
Proof. intros w Hw. unfold requireUser. by destruct (_ ≫= _). Qed.

Lemma keeps_select {R} (T : TableDef R) f : keeps_keys (db_select T f).
Proof. by intros w Hw. Qed.

Lemma keeps_getOwnedSession sessionId userId :
  keeps_keys (getOwnedSession sessionId userId).
Proof.
  apply keeps_await; [apply keeps_select|].
  intros found. destruct (head found); [apply keeps_resolve|apply keeps_throw].
Qed.

Lemma keeps_ensureTemplateAccessible templateId userId :
  keeps_keys (ensureTemplateAccessible templateId userId).
Proof.
  apply keeps_await; [apply keeps_select|].
  intros found. destruct (head found) as [t|]; [|apply keeps_throw].
  destruct (truthy _ && _); [apply keeps_throw|apply keeps_resolve].
Qed.

Lemma NoDup_snoc_keys {R} (key : R → string) (l : list R) r :
  NoDup (key <$> l) → key r ∉ key <$> l → NoDup (key <$> l ++ [r]).
Proof.
  intros Hnd Hfresh. rewrite fmap_app. apply NoDup_app.
  split; [done|]. split; [|apply NoDup_singleton].
  intros x Hx Hin. apply list_elem_of_singleton in Hin. by subst.
Qed.

Lemma NoDup_filter_keys {R} (key : R → string) (P : R → Prop)
    `{!∀ x, Decision (P x)} (l : list R) :
  NoDup (key <$> l) → NoDup (key <$> filter P l).
Proof.
  induction l as [|y l IH]; [done|]. rewrite fmap_cons, NoDup_cons.
  intros [Hy Hl]. rewrite filter_cons. case_decide; [|by apply IH].
  rewrite fmap_cons, NoDup_cons. split; [|by apply IH].
  intros Hin. apply Hy. apply list_elem_of_fmap in Hin as (x & -> & Hx).
  apply list_elem_of_filter in Hx as [_ Hx]. by apply list_elem_of_fmap_2.
Qed.

Lemma apply_set_key {R} (key : R → string) (s : list (R → R)) :
  Forall (λ g, ∀ r, key (g r) = key r) s →
  ∀ r, key (apply_set s r) = key r.
Proof.
  unfold apply_set. induction 1 as [|g s Hg _ IH]; intros r; [done|].
  simpl. by rewrite IH, Hg.
Qed.

Lemma update_keeps_keys {R} (key : R → string) (hit : R → bool)
    (g : R → R) (l : list R) :
  (∀ r, key (g r) = key r) →
  key <$> ((λ r, if hit r then g r else r) <$> l) = key <$> l.
Proof.
  intros Hg. rewrite <- list_fmap_compose. apply list_fmap_ext.
  intros i r _. simpl. by destruct (hit r).
Qed.

Lemma keeps_insert_session r : keeps_keys (db_insert CaptionSessionsT r).
Proof.
  intros w (Hs & Hc & Ht). unfold db_insert. case_bool_decide; [done|].
  split; [|done]. by apply NoDup_snoc_keys.
Qed.

Lemma keeps_insert_caption r : keeps_keys (db_insert CaptionsT r).
Proof.
  intros w (Hs & Hc & Ht). unfold db_insert. case_bool_decide; [done|].
  split; [done|]. split; [|done]. by apply NoDup_snoc_keys.
Qed.

Lemma keeps_insert_template r : keeps_keys (db_insert CaptionTemplatesT r).
Proof.
  intros w (Hs & Hc & Ht). unfold db_insert. case_bool_decide; [done|].
  split; [done|]. split; [done|]. by apply NoDup_snoc_keys.
Qed.

Lemma keeps_update_session s f :
  Forall (λ g, ∀ r, CaptionSessions.id (g r) = CaptionSessions.id r) s →
  keeps_keys (db_update CaptionSessionsT s f).
Proof.
  intros Hs w (Hsessions & Hc & Ht). unfold db_update.
  destruct s as [|g s]; [done|]. split; [|done].
  unfold unique_keys, sent, world.
  cbn [snd db rows with_rows primaryKey CaptionSessionsT sessions].
  rewrite (update_keeps_keys CaptionSessions.id); [done|].
  by apply apply_set_key.
Qed.

Lemma keeps_update_caption s f :
  Forall (λ g, ∀ r, Captions.id (g r) = Captions.id r) s →
  keeps_keys (db_update CaptionsT s f).
Proof.
  intros Hs w (Hsessions & Hc & Ht). unfold db_update.
  destruct s as [|g s]; [done|]. split; [done|]. split; [|done].
  unfold unique_keys, sent, world.
  cbn [snd db rows with_rows primaryKey CaptionsT captions].
  rewrite (update_keeps_keys Captions.id); [done|].
  by apply apply_set_key.
Qed.

Lemma keeps_delete_caption f : keeps_keys (db_delete CaptionsT f).
Proof.
  intros w (Hs & Hc & Ht). unfold db_delete.
  split; [done|]. split; [|done]. by apply NoDup_filter_keys.
Qed.

Lemma spread_keeps_key {R V} (key : R → string) (v : option V)
    (assign : V → R → R) :
  (∀ x r, key (assign x r) = key r) →
  Forall (λ g, ∀ r, key (g r) = key r) (spread v assign).
Proof. intros Hassign. destruct v; repeat constructor. apply Hassign. Qed.

Lemma keeps_defineAction {I P O} (input : I → option P)
    (handler : P → ActionAPIContext → Async O) raw context :
  (∀ parsed, keeps_keys (handler parsed context)) →
  keeps_keys (defineAction input handler raw context).
Proof.
  intros Hh. unfold defineAction.
  destruct (input raw); [apply Hh|apply keeps_throw].
Qed.

End invariant.

Create HintDb keys.
#[local] Hint Resolve keeps_resolve keeps_throw keeps_new_Date
  keeps_randomUUID keeps_requireUser keeps_select keeps_getOwnedSession
  keeps_ensureTemplateAccessible keeps_insert_session keeps_insert_caption
  keeps_insert_template keeps_delete_caption : keys.

Ltac keep_keys :=
  repeat first
    [ solve [auto with keys]
    | apply keeps_defineAction; intros ?
    | apply keeps_await; [|intros ?] ].

(** Every action of the module keeps the primary keys unique. *)
Theorem actions_keep_keys raw body context :
  keeps_keys (server.createCaptionSession raw context)
  ∧ keeps_keys (server.updateCaptionSession raw context)
  ∧ keeps_keys (server.listCaptionSessions body context)
  ∧ keeps_keys (server.createCaption raw context)
  ∧ keeps_keys (server.updateCaption raw context)
  ∧ keeps_keys (server.deleteCaption raw context)
  ∧ keeps_keys (server.listCaptions raw context)
  ∧ keeps_keys (server.createTemplate raw context)
  ∧ keeps_keys (server.listTemplates body context).
Proof.
  repeat match goal with |- _ ∧ _ => split end.
  - unfold server.createCaptionSession, server.createCaptionSession_handler.
    keep_keys.
  - unfold server.updateCaptionSession, server.updateCaptionSession_handler.
    keep_keys. apply keeps_update_session.
    repeat (apply Forall_app; split);
      try (apply (spread_keeps_key CaptionSessions.id); done).
    by repeat constructor.
  - unfold server.listCaptionSessions, server.listCaptionSessions_handler.
    keep_keys.
  - unfold server.createCaption, server.createCaption_handler.
    keep_keys.
    destruct (CreateCaptionInput.templateId _) as [templateId|];
      [|keep_keys].
    destruct (truthy _); keep_keys.
  - unfold server.updateCaption, server.updateCaption_handler.
    keep_keys.
    match goal with |- keeps_keys (match head ?l with _ => _ end) =>
      destruct (head l) end; keep_keys.
    apply keeps_update_caption.
    repeat (apply Forall_app; split);
      apply (spread_keeps_key Captions.id); done.
  - unfold server.deleteCaption, server.deleteCaption_handler.
    keep_keys. case_bool_decide; keep_keys.
  - unfold server.listCaptions, server.listCaptions_handler.
    keep_keys.
  - unfold server.createTemplate, server.createTemplate_handler.
    keep_keys.
  - unfold server.listTemplates, server.listTemplates_handler.
    keep_keys.
Qed.

(** ** Each action writes its own table only *)

Section frames.
Context {X : Type} (part : Db → X).

Lemma leaves_resolve {A} (a : A) : leaves part (resolve a).
Proof. by intros w. Qed.

Lemma leaves_throw {A} e : leaves part (@throw A e).
Proof. by intros w. Qed.

Lemma leaves_await {A B} (m : Async A) (k : A → Async B) :
  leaves part m → (∀ a, leaves part (k a)) → leaves part (m ≫= k).
Proof.
  intros Hm Hk w. unfold mbind, Async_bind, await.
  specialize (Hm w). destruct (m w) as [[a|e] w1]; [|done].
  unfold world in *; simpl in *. rewrite <- Hm. apply Hk.
Qed.

Lemma leaves_new_Date : leaves part new_Date.
Proof. by intros w. Qed.

Lemma leaves_randomUUID : leaves part randomUUID.
Proof. by intros w. Qed.

Lemma leaves_requireUser context : leaves part (requireUser context).
Proof. intros w. unfold requireUser. by destruct (_ ≫= _). Qed.

Lemma leaves_select {R} (T : TableDef R) f : leaves part (db_select T f).
Proof. by intros w. Qed.

Lemma leaves_getOwnedSession sessionId userId :
  leaves part (getOwnedSession sessionId userId).
Proof.
  apply leaves_await; [apply leaves_select|].
  intros found. destruct (head found); [apply leaves_resolve|apply leaves_throw].
Qed.

Lemma leaves_ensureTemplateAccessible templateId userId :
  leaves part (ensureTemplateAccessible templateId userId).
Proof.
  apply leaves_await; [apply leaves_select|].
  intros found. destruct (head found) as [t|]; [|apply leaves_throw].
  destruct (truthy _ && _); [apply leaves_throw|apply leaves_resolve].
Qed.

(** A statement on table [T] leaves every part that does not read [T]. *)
Lemma leaves_insert {R} (T : TableDef R) r :
  (∀ l d, part (with_rows T l d) = part d) → leaves part (db_insert T r).
Proof.
  intros Hpart w. unfold db_insert. case_bool_decide; [done|]. apply Hpart.
Qed.

Lemma leaves_update {R} (T : TableDef R) s f :
  (∀ l d, part (with_rows T l d) = part d) → leaves part (db_update T s f).
Proof.
  intros Hpart w. unfold db_update. destruct s; [done|]. apply Hpart.
Qed.

Lemma leaves_delete {R} (T : TableDef R) f :
  (∀ l d, part (with_rows T l d) = part d) → leaves part (db_delete T f).
Proof. intros Hpart w. apply Hpart. Qed.

Lemma leaves_defineAction {I P O} (input : I → option P)
    (handler : P → ActionAPIContext → Async O) raw context :
  (∀ parsed, leaves part (handler parsed context)) →
  leaves part (defineAction input handler raw context).
Proof.
  intros Hh. unfold defineAction.
  destruct (input raw); [apply Hh|apply leaves_throw].
Qed.

End frames.

Create HintDb frames.
#[local] Hint Resolve leaves_resolve leaves_throw leaves_new_Date
  leaves_randomUUID leaves_requireUser leaves_select leaves_getOwnedSession
  leaves_ensureTemplateAccessible : frames.
#[local] Hint Extern 1 (leaves _ (db_insert _ _)) =>
  apply leaves_insert; reflexivity : frames.
#[local] Hint Extern 1 (leaves _ (db_update _ _ _)) =>
  apply leaves_update; reflexivity : frames.
#[local] Hint Extern 1 (leaves _ (db_delete _ _)) =>
  apply leaves_delete; reflexivity : frames.

Ltac frame :=
  repeat first
    [ solve [auto with frames]
    | apply leaves_defineAction; intros ?
    | apply leaves_await; [|intros ?]
    | match goal with
      | |- leaves _ (match ?x with _ => _ end) => destruct x
      end ].


(** ** No caption is ever orphaned *)

Section integrity.

Lemma preserves_resolve {A} I (a : A) : preserves I (resolve a).
Proof. by intros w Hw. Qed.

Lemma preserves_throw {A} I e : preserves I (@throw A e).
Proof. by intros w Hw. Qed.

Lemma preserves_await {A B} I (m : Async A) (k : A → Async B) :
  preserves I m → (∀ a, preserves I (k a)) → preserves I (m ≫= k).
Proof.
  intros Hm Hk w Hw. unfold mbind, Async_bind, await.
  specialize (Hm w Hw). destruct (m w) as [[a|e] w1]; [|done].
  by apply Hk.
Qed.

Lemma preserves_leaves {A} I (m : Async A) : leaves whole m → preserves I m.
Proof. intros Hm w Hw. specialize (Hm w). unfold whole in Hm. by rewrite Hm. Qed.

Lemma preserves_defineAction {I P O} Inv (input : I → option P)
    (handler : P → ActionAPIContext → Async O) raw context :
  (∀ parsed, preserves Inv (handler parsed context)) →
  preserves Inv (defineAction input handler raw context).
Proof.
  intros Hh. unfold defineAction.
  destruct (input raw); [apply Hh|apply preserves_throw].
Qed.

Lemma no_orphans_insert_session r :
  preserves no_orphans (db_insert CaptionSessionsT r).
Proof.
  intros w Hw. unfold db_insert. case_bool_decide; [done|].
  intros c Hc. destruct (Hw c Hc) as (s & Hs & Hid).
  exists s. split; [|done]. apply elem_of_app. by left.
Qed.

Lemma no_orphans_insert_template r :
  preserves no_orphans (db_insert CaptionTemplatesT r).
Proof. intros w Hw. unfold db_insert. by case_bool_decide. Qed.

Lemma no_orphans_update_session s f :
  Forall (λ g, ∀ r, CaptionSessions.id (g r) = CaptionSessions.id r) s →
  preserves no_orphans (db_update CaptionSessionsT s f).
Proof.
  intros Hs w Hw. unfold db_update.
  pose proof (apply_set_key CaptionSessions.id s Hs) as Hkey.
  destruct s as [|g s]; [done|].
  intros c Hc. destruct (Hw c Hc) as (x & Hx & Hid).
  exists (if astro_db.matches f x then apply_set (g :: s) x else x).
  split.
  - apply (list_elem_of_fmap_2
             (λ r, if astro_db.matches f r then apply_set (g :: s) r else r)).
    exact Hx.
  - destruct (astro_db.matches f x); [by rewrite Hkey|done].
Qed.

Lemma no_orphans_update_caption s f :
  Forall (λ g, ∀ r, Captions.sessionId (g r) = Captions.sessionId r) s →
  preserves no_orphans (db_update CaptionsT s f).
Proof.
  intros Hs w Hw. unfold db_update.
  pose proof (apply_set_key Captions.sessionId s Hs) as Hkey.
  destruct s as [|g s]; [done|].
  intros c Hc.
  apply (list_elem_of_fmap_1
           (λ r, if astro_db.matches f r then apply_set (g :: s) r else r))
    in Hc as (x & -> & Hx).
  destruct (Hw x Hx) as (y & Hy & Hid). exists y. split; [done|].
  destruct (astro_db.matches f x); [by rewrite Hkey|done].
Qed.

Lemma no_orphans_delete_caption f :
  preserves no_orphans (db_delete CaptionsT f).
Proof.
  intros w Hw c Hc. apply list_elem_of_filter in Hc as [_ Hc].
  by apply Hw.
Qed.

End integrity.

Create HintDb integrity.
#[local] Hint Resolve preserves_resolve preserves_throw
  no_orphans_insert_session no_orphans_insert_template
  no_orphans_delete_caption : integrity.
#[local] Hint Extern 1 (preserves _ ?m) =>
  apply preserves_leaves; solve [auto with frames] : integrity.

Ltac keep :=
  repeat first
    [ solve [auto with integrity]
    | apply preserves_defineAction; intros ?
    | apply preserves_await; [|intros ?]
    | match goal with
      | |- preserves _ (match ?x with _ => _ end) => destruct x
      end ].

(** [createCaption] inserts under the session it has just resolved. *)
Lemma createCaption_no_orphans raw context :
  preserves no_orphans (server.createCaption raw context).
Proof.
  apply preserves_defineAction. intros input w Hw.
  unfold server.createCaption_handler, mbind, Async_bind, await.
  unfold requireUser. destruct (locals context ≫= App.user) as [user|]; [|done].
  unfold resolve at 1.
  destruct (getOwnedSession_spec (CreateCaptionInput.sessionId input)
              (App.id user) w) as [(s & -> & Hs & Hid & _)|[-> _]]; [|done].
  set (w1 := sent (Select TCaptionSessions) (db w) w).
  assert (∀ w2 : World, db w2 = db w →
            no_orphans
              (db (world
                 (await randomUUID (λ uuid,
                    await new_Date (λ now,
                      await (db_insert CaptionsT
                               (Captions.mk uuid
                                  (CreateCaptionInput.sessionId input)
                                  (CreateCaptionInput.platform input)
                                  (CreateCaptionInput.tone input)
                                  (CreateCaptionInput.variantLabel input)
                                  (CreateCaptionInput.captionText input)
                                  (CreateCaptionInput.hashtags input) now))
                            (λ inserted,
                               resolve (mkEnvelope true (head inserted)))))
                    w2)))) as Hinsert.
  { intros w2 Hdb. unfold await, randomUUID, new_Date, db_insert, resolve.
    simpl. case_bool_decide; simpl; rewrite Hdb; [done|].
    intros c Hc. apply elem_of_app in Hc as [Hc|Hc].
    - by apply Hw.
    - apply list_elem_of_singleton in Hc as ->. by exists s. }
  destruct (CreateCaptionInput.templateId input) as [templateId|];
    [|by apply Hinsert].
  destruct (truthy (Some templateId)); [|by apply Hinsert].
  pose proof (leaves_ensureTemplateAccessible whole templateId (App.id user) w1)
    as Hsame.
  unfold whole, world in Hsame.
  destruct (ensureTemplateAccessible templateId (App.id user) w1)
    as [[t|e] w2]; simpl in Hsame.
  - unfold resolve at 1. by apply Hinsert.
  - unfold world; simpl. by rewrite Hsame.
Qed.

(** The [references] constraint of the schema is an invariant of the action
    layer: if every caption belongs to a stored session, this still holds
    after any action, for every request and every ending.  ([createCaption]
    inserts only under a session it has just found, captions never change
    session, and sessions are never deleted or renamed.) *)
Theorem actions_keep_captions_attached raw body context :
  preserves no_orphans (server.createCaptionSession raw context)
  ∧ preserves no_orphans (server.updateCaptionSession raw context)
  ∧ preserves no_orphans (server.listCaptionSessions body context)
  ∧ preserves no_orphans (server.createCaption raw context)
  ∧ preserves no_orphans (server.updateCaption raw context)
  ∧ preserves no_orphans (server.deleteCaption raw context)
  ∧ preserves no_orphans (server.listCaptions raw context)
  ∧ preserves no_orphans (server.createTemplate raw context)
  ∧ preserves no_orphans (server.listTemplates body context).
Proof.
  repeat match goal with |- _ ∧ _ => split end.
  - unfold server.createCaptionSession, server.createCaptionSession_handler.
    keep.
  - unfold server.updateCaptionSession, server.updateCaptionSession_handler.
    keep. apply no_orphans_update_session.
    repeat (apply Forall_app; split);
      try (apply (spread_keeps_key CaptionSessions.id); done).
    by repeat constructor.
  - unfold server.listCaptionSessions, server.listCaptionSessions_handler.
    keep.
  - apply createCaption_no_orphans.
  - unfold server.updateCaption, server.updateCaption_handler.
    keep. apply no_orphans_update_caption.
    repeat (apply Forall_app; split);
      apply (spread_keeps_key Captions.sessionId); done.
  - unfold server.deleteCaption, server.deleteCaption_handler. keep.
  - unfold server.listCaptions, server.listCaptions_handler. keep.
  - unfold server.createTemplate, server.createTemplate_handler. keep.
  - unfold server.listTemplates, server.listTemplates_handler. keep.
Qed.

(** ** Listings are scoped to the acting user *)

Lemma listCaptionSessions_run raw context user w :
  object_or_undefined raw →
  locals context ≫= App.user = Some user →
  server.listCaptionSessions raw context w
  = (Return
       (mkEnvelope true
          (mkListing
             (filter (λ s, CaptionSessions.userId s = App.id user)
                     (sessions (db w)))
             (length
                (filter (λ s, CaptionSessions.userId s = App.id user)
                        (sessions (db w)))))),
     sent (Select TCaptionSessions) (db w) w).
Proof.
  intros Hbody Huser.
  unfold server.listCaptionSessions, defineAction.
  replace (server.listCaptionSessions_input raw) with (Some ())
    by (by destruct raw as [[o|items|v]|]).
  unfold server.listCaptionSessions_handler, mbind, Async_bind, await.
  rewrite (requireUser_present _ user) by done.
  unfold db_select, resolve; simpl.
  by rewrite (list_filter_iff _
    (λ s, CaptionSessions.userId s = App.id user))
    by (intros s; apply matches_eq_text).
Qed.

(** [listCaptionSessions] reads nothing from its request.  On a body that
    is [undefined] or an object it succeeds for every signed-in user: a
    session is among the items exactly when it is stored and its [userId]
    is the acting user's id, [total] is the number of items, and the store
    is left as it was.  A body that is not an object is refused by
    validation: BAD_REQUEST, in the world the action started from. *)
Theorem listCaptionSessions_own_sessions_only body context w :
  (∀ user,
     locals context ≫= App.user = Some user →
     object_or_undefined body →
     ∃ listing,
       outcome (server.listCaptionSessions body context w)
       = Return (mkEnvelope true listing)
       ∧ (∀ s, s ∈ items listing
               ↔ s ∈ sessions (db w)
                 ∧ CaptionSessions.userId s = App.id user)
       ∧ total listing = length (items listing)
       ∧ db (world (server.listCaptionSessions body context w)) = db w)
  ∧ (¬ object_or_undefined body →
     server.listCaptionSessions body context w = (Throw invalid_input, w)).
Proof.
  split.
  - intros user Huser Hbody.
    rewrite (listCaptionSessions_run body context user w Hbody Huser).
    eexists. split; [reflexivity|]. simpl. split; [|done].
    intros s. rewrite list_elem_of_filter. tauto.
  - intros Hbody. unfold server.listCaptionSessions, defineAction.
    by destruct body as [[o|items|v]|]; [destruct Hbody|..|destruct Hbody].
Qed.

Lemma listCaptionSessions_own_sessions_only_witness :
  (∃ listing,
     outcome (server.listCaptionSessions None alice demo)
     = Return (mkEnvelope true listing)
     ∧ (∀ s, s ∈ items listing
             ↔ s ∈ sessions (db demo) ∧ CaptionSessions.userId s = "alice")
     ∧ total listing = length (items listing)
     ∧ db (world (server.listCaptionSessions None alice demo)) = db demo)
  ∧ server.listCaptionSessions (Some (JsOther (JsString "junk"))) alice demo
    = (Throw invalid_input, demo).
Proof.
  split.
  - destruct (listCaptionSessions_own_sessions_only None alice demo)
      as [Hlisted _].
    apply (Hlisted (App.mkUser "alice")); [reflexivity|exact I].
  - destruct (listCaptionSessions_own_sessions_only
                (Some (JsOther (JsString "junk"))) alice demo)
      as [_ Hrefused].
    apply Hrefused. intros [].
Defined.

Lemma listCaptions_run raw input context user w s :
  server.listCaptions_input raw = Some input →
  locals context ≫= App.user = Some user →
  s ∈ sessions (db w) →
  CaptionSessions.id s = ListCaptionsInput.sessionId input →
  CaptionSessions.userId s = App.id user →
  server.listCaptions raw context w
  = (Return
       (mkEnvelope true
          (mkListing
             (filter (λ c, Captions.sessionId c
                           = ListCaptionsInput.sessionId input)
                     (captions (db w)))
             (length
                (filter (λ c, Captions.sessionId c
                              = ListCaptionsInput.sessionId input)
                        (captions (db w)))))),
     sent (Select TCaptions) (db w) (sent (Select TCaptionSessions) (db w) w)).
Proof.
  intros Hparse Huser Hs Hid Hown.
  unfold server.listCaptions, defineAction. rewrite Hparse.
  unfold server.listCaptions_handler, mbind, Async_bind, await.
  rewrite (requireUser_present _ user) by done.
  destruct (getOwnedSession_owned (ListCaptionsInput.sessionId input)
              (App.id user) w s) as (s' & -> & _); [done..|].
  unfold db_select, resolve; simpl.
  by rewrite (list_filter_iff _
    (λ c, Captions.sessionId c = ListCaptionsInput.sessionId input))
    by (intros c; apply matches_eq_text).
Qed.



(** ** Creating a session *)

Lemma createCaptionSession_run raw input context user w :
  server.createCaptionSession_input raw = Some input →
  locals context ≫= App.user = Some user →
  server.createCaptionSession raw context w
  = (let w1 := mkWorld (db w) (journal w) (clock w) (uuid_source w)
                       (S (uuid_drawn w)) in
     let row := CaptionSessions.mk (uuid_source w (uuid_drawn w))
                  (App.id user)
                  (CreateCaptionSessionInput.name input)
                  (CreateCaptionSessionInput.description input)
                  (CreateCaptionSessionInput.coreMessage input)
                  (CreateCaptionSessionInput.targetAudience input)
                  (clock w) (clock w) in
     if bool_decide (CaptionSessions.id row
                     ∈ CaptionSessions.id <$> sessions (db w))
     then (Throw (StoreError "UNIQUE constraint failed"),
           sent (Insert TCaptionSessions) (db w) w1)
     else (Return (mkEnvelope true (Some row)),
           sent (Insert TCaptionSessions)
                (mkDb (sessions (db w) ++ [row]) (captions (db w))
                      (templates (db w))) w1)).
Proof.
  intros Hparse Huser.
  unfold server.createCaptionSession, defineAction. rewrite Hparse.
  unfold server.createCaptionSession_handler, mbind, Async_bind, await.
  rewrite (requireUser_present _ user) by done.
  unfold new_Date, randomUUID, db_insert, resolve; simpl.
  by case_bool_decide.
Qed.

(** A session returned by [createCaptionSession] belongs to the acting
    user, carries the drawn identifier and the request's name, and has
    [createdAt = updatedAt = now]; it is appended to the sessions.  From
    then on [listCaptionSessions] shows it to its owner and to nobody
    else. *)
Theorem created_session_listed_for_owner_only raw context w e w1 :
  server.createCaptionSession raw context w = (Return e, w1) →
  ∃ input user s,
    server.createCaptionSession_input raw = Some input
    ∧ locals context ≫= App.user = Some user
    ∧ e = mkEnvelope true (Some s)
    ∧ CaptionSessions.id s = uuid_source w (uuid_drawn w)
    ∧ CaptionSessions.userId s = App.id user
    ∧ CaptionSessions.name s = CreateCaptionSessionInput.name input
    ∧ CaptionSessions.createdAt s = clock w
    ∧ CaptionSessions.updatedAt s = clock w
    ∧ sessions (db w1) = sessions (db w) ++ [s]
    ∧ (∀ raw',
         object_or_undefined raw' →
         ∃ listing,
           outcome (server.listCaptionSessions raw' context w1)
           = Return (mkEnvelope true listing)
           ∧ s ∈ items listing)
    ∧ (∀ raw' context' user',
         object_or_undefined raw' →
         locals context' ≫= App.user = Some user' →
         App.id user' ≠ App.id user →
         ∃ listing,
           outcome (server.listCaptionSessions raw' context' w1)
           = Return (mkEnvelope true listing)
           ∧ s ∉ items listing).
Proof.
  intros Hrun.
  destruct (server.createCaptionSession_input raw) as [input|] eqn:Hparse;
    [|by unfold server.createCaptionSession, defineAction in Hrun;
         rewrite Hparse in Hrun].
  destruct (locals context ≫= App.user) as [user|] eqn:Huser.
  2:{ unfold server.createCaptionSession, defineAction in Hrun.
      rewrite Hparse in Hrun.
      unfold server.createCaptionSession_handler, mbind, Async_bind, await
        in Hrun.
      by rewrite requireUser_absent in Hrun. }
  rewrite (createCaptionSession_run raw input context user w) in Hrun by done.
  simpl in Hrun. case_bool_decide; [done|].
  injection Hrun as <- <-.
  eexists input, user, _. repeat (split; [reflexivity|]). split.
  - intros raw' Hbody.
    rewrite (listCaptionSessions_run raw' context user) by done.
    eexists. split; [reflexivity|]. simpl.
    apply list_elem_of_filter. split; [done|].
    apply elem_of_app. right. by apply list_elem_of_singleton.
  - intros raw' context' user' Hbody Huser' Hdiff.
    rewrite (listCaptionSessions_run raw' context' user') by done.
    eexists. split; [reflexivity|]. simpl.
    intros Hin. apply list_elem_of_filter in Hin as [Hown _].
    simpl in Hown. by apply Hdiff.
Qed.

Lemma created_session_listed_for_owner_only_witness :
  ∃ s,
    outcome (server.createCaptionSession new_session alice demo)
    = Return (mkEnvelope true (Some s))
    ∧ CaptionSessions.name s = "Spring sale"
    ∧ CaptionSessions.createdAt s = CaptionSessions.updatedAt s.
Proof.
  edestruct (created_session_listed_for_owner_only new_session alice demo)
    as (input & user & s & Hparse & _ & He & _ & _ & Hname & Hc & Hu & _);
    [reflexivity|].
  exists s. split; [by rewrite <- He|]. split.
  - rewrite Hname. vm_compute in Hparse. by injection Hparse as <-.
  - by rewrite Hc, Hu.
Defined.

(** ** Creating a caption *)

Lemma ensureTemplateAccessible_world templateId userId w :
  world (ensureTemplateAccessible templateId userId w)
  = sent (Select TCaptionTemplates) (db w) w.
Proof.
  unfold ensureTemplateAccessible, db_select. run.
  by destruct (head _) as [t|]; [destruct (truthy _ && _)|].
Qed.

(** What a successful [createCaption] has done. *)
Lemma createCaption_success_inv raw context w e w1 :
  server.createCaption raw context w = (Return e, w1) →
  ∃ input user s c,
    server.createCaption_input raw = Some input
    ∧ locals context ≫= App.user = Some user
    ∧ s ∈ sessions (db w)
    ∧ CaptionSessions.id s = CreateCaptionInput.sessionId input
    ∧ CaptionSessions.userId s = App.id user
    ∧ e = mkEnvelope true (Some c)
    ∧ c = Captions.mk (uuid_source w (uuid_drawn w))
            (CreateCaptionInput.sessionId input)
            (CreateCaptionInput.platform input)
            (CreateCaptionInput.tone input)
            (CreateCaptionInput.variantLabel input)
            (CreateCaptionInput.captionText input)
            (CreateCaptionInput.hashtags input)
            (clock w)
    ∧ (Captions.id c ∉ Captions.id <$> captions (db w))
    ∧ db w1 = mkDb (sessions (db w)) (captions (db w) ++ [c])
                   (templates (db w)).
Proof.
  unfold server.createCaption, defineAction.
  destruct (server.createCaption_input raw) as [input|]; [|done].
  unfold server.createCaption_handler, mbind, Async_bind, await.
  unfold requireUser.
  destruct (locals context ≫= App.user) as [user|] eqn:Huser; [|done].
  unfold resolve at 1.
  destruct (getOwnedSession_spec (CreateCaptionInput.sessionId input)
              (App.id user) w) as [(s & -> & Hs & Hid & Hown)|[-> _]]; [|done].
  set (w1' := sent (Select TCaptionSessions) (db w) w).
  assert (∀ w2 : World,
            db w2 = db w → clock w2 = clock w →
            uuid_source w2 = uuid_source w → uuid_drawn w2 = uuid_drawn w →
            await randomUUID (λ uuid,
              await new_Date (λ now,
                await (db_insert CaptionsT
                         (Captions.mk uuid
                            (CreateCaptionInput.sessionId input)
                            (CreateCaptionInput.platform input)
                            (CreateCaptionInput.tone input)
                            (CreateCaptionInput.variantLabel input)
                            (CreateCaptionInput.captionText input)
                            (CreateCaptionInput.hashtags input) now))
                      (λ inserted,
                         resolve (mkEnvelope true (head inserted))))) w2
            = (Return e, w1) →
            ∃ c,
              e = mkEnvelope true (Some c)
              ∧ c = Captions.mk (uuid_source w (uuid_drawn w))
                      (CreateCaptionInput.sessionId input)
                      (CreateCaptionInput.platform input)
                      (CreateCaptionInput.tone input)
                      (CreateCaptionInput.variantLabel input)
                      (CreateCaptionInput.captionText input)
                      (CreateCaptionInput.hashtags input)
                      (clock w)
              ∧ (Captions.id c ∉ Captions.id <$> captions (db w))
              ∧ db w1 = mkDb (sessions (db w)) (captions (db w) ++ [c])
                             (templates (db w))) as Hinsert.
  { intros w2 Hdb Hclock Hsrc Hdrawn.
    unfold await, randomUUID, new_Date, db_insert, resolve. simpl.
    rewrite Hdb, Hclock, Hsrc, Hdrawn.
    case_bool_decide as Hfresh; [done|].
    intros [= <- <-]. by eexists. }
  intros Hrun.
  assert (∃ c,
            e = mkEnvelope true (Some c)
            ∧ c = Captions.mk (uuid_source w (uuid_drawn w))
                    (CreateCaptionInput.sessionId input)
                    (CreateCaptionInput.platform input)
                    (CreateCaptionInput.tone input)
                    (CreateCaptionInput.variantLabel input)
                    (CreateCaptionInput.captionText input)
                    (CreateCaptionInput.hashtags input)
                    (clock w)
            ∧ (Captions.id c ∉ Captions.id <$> captions (db w))
            ∧ db w1 = mkDb (sessions (db w)) (captions (db w) ++ [c])
                           (templates (db w))) as (c & He & Hc & Hf & Hdb).
  { destruct (CreateCaptionInput.templateId input) as [templateId|];
      [|by eapply (Hinsert w1'); [..|exact Hrun]].
    destruct (truthy (Some templateId));
      [|by eapply (Hinsert w1'); [..|exact Hrun]].
    pose proof (ensureTemplateAccessible_world templateId (App.id user) w1')
      as Hworld.
    destruct (ensureTemplateAccessible templateId (App.id user) w1')
      as [[t|err] w2]; [|done].
    unfold world in Hworld; simpl in Hworld. subst w2.
    unfold resolve at 1 in Hrun.
    by eapply Hinsert; [..|exact Hrun]. }
  by exists input, user, s, c.
Qed.

(** [createCaption] checks the session before anything else: under a
    session that is not the acting user's it throws the session's NOT_FOUND
    whatever [templateId] the request carries, after the session query
    alone; no template is looked up and nothing is inserted. *)
Theorem createCaption_needs_owned_session raw input context user w :
  server.createCaption_input raw = Some input →
  locals context ≫= App.user = Some user →
  (∀ s, s ∈ sessions (db w) →
        ¬ (CaptionSessions.id s = CreateCaptionInput.sessionId input
           ∧ CaptionSessions.userId s = App.id user)) →
  outcome (server.createCaption raw context w) = Throw session_not_found
  ∧ journal (world (server.createCaption raw context w))
    = journal w ++ [Select TCaptionSessions]
  ∧ db (world (server.createCaption raw context w)) = db w.
Proof.
  intros Hparse Huser Hnone.
  unfold server.createCaption, defineAction. rewrite Hparse.
  unfold server.createCaption_handler, mbind, Async_bind, await.
  rewrite (requireUser_present _ user) by done.
  by rewrite getOwnedSession_missing.
Qed.

Lemma createCaption_needs_owned_session_witness :
  outcome (server.createCaption caption_for_hiring alice demo)
  = Throw session_not_found
  ∧ journal (world (server.createCaption caption_for_hiring alice demo))
    = journal demo ++ [Select TCaptionSessions]
  ∧ db (world (server.createCaption caption_for_hiring alice demo)) = db demo.
Proof.
  apply (createCaption_needs_owned_session caption_for_hiring
           (CreateCaptionInput.mk "s-hiring" None None None "Join us" None
              (Some "t-bob"))
           alice (App.mkUser "alice") demo).
  - compute_done.
  - reflexivity.
  - intros s Hs [Hid Hu].
    assert (s ∈ [launch; teaser; hiring]) as Hin by exact Hs.
    rewrite !elem_of_cons, elem_of_nil in Hin.
    destruct Hin as [->|[->|[->|[]]]]; discriminate.
Defined.

(** A [createCaption] request without a [templateId] (absent, or the empty
    string) under a session of the acting user never reads the templates.
    With a fresh identifier it appends one caption carrying the request's
    fields, the session id and the current time, and returns it; with an
    identifier already in use the store refuses the insert and nothing is
    stored. *)
Theorem createCaption_without_template raw input context user w s :
  server.createCaption_input raw = Some input →
  locals context ≫= App.user = Some user →
  s ∈ sessions (db w) →
  CaptionSessions.id s = CreateCaptionInput.sessionId input →
  CaptionSessions.userId s = App.id user →
  truthy (CreateCaptionInput.templateId input) = false →
  let c := Captions.mk (uuid_source w (uuid_drawn w))
             (CreateCaptionInput.sessionId input)
             (CreateCaptionInput.platform input)
             (CreateCaptionInput.tone input)
             (CreateCaptionInput.variantLabel input)
             (CreateCaptionInput.captionText input)
             (CreateCaptionInput.hashtags input)
             (clock w) in
  ((Captions.id c ∉ Captions.id <$> captions (db w)) →
   outcome (server.createCaption raw context w)
   = Return (mkEnvelope true (Some c))
   ∧ db (world (server.createCaption raw context w))
     = mkDb (sessions (db w)) (captions (db w) ++ [c]) (templates (db w))
   ∧ journal (world (server.createCaption raw context w))
     = journal w ++ [Select TCaptionSessions; Insert TCaptions])
  ∧ (Captions.id c ∈ Captions.id <$> captions (db w) →
     outcome (server.createCaption raw context w)
     = Throw (StoreError "UNIQUE constraint failed")
     ∧ db (world (server.createCaption raw context w)) = db w
     ∧ journal (world (server.createCaption raw context w))
       = journal w ++ [Select TCaptionSessions; Insert TCaptions]).
Proof.
  intros Hparse Huser Hs Hid Hown Hfalsy c.
  unfold server.createCaption, defineAction. rewrite Hparse.
  unfold server.createCaption_handler, mbind, Async_bind, await.
  rewrite (requireUser_present _ user) by done.
  destruct (getOwnedSession_owned (CreateCaptionInput.sessionId input)
              (App.id user) w s) as (s' & -> & _); [done..|].
  destruct (CreateCaptionInput.templateId input) as [templateId|];
    rewrite ?Hfalsy;
    unfold resolve, randomUUID, new_Date, db_insert; simpl;
    (split; intros Hfresh;
     [rewrite bool_decide_eq_false_2 by done
     |rewrite bool_decide_eq_true_2 by done];
     simpl; by rewrite <- app_assoc).
Qed.

Lemma createCaption_without_template_witness :
  outcome (server.createCaption plain_caption alice demo)
  = Return (mkEnvelope true
              (Some (Captions.mk "uuid-0" "s-launch" (Some "instagram") None
                       None "Hello there" None 100)))
  ∧ Select TCaptionTemplates
    ∉ journal (world (server.createCaption plain_caption alice demo)).
Proof.
  edestruct (createCaption_without_template plain_caption
               (CreateCaptionInput.mk "s-launch" (Some "instagram") None None
                  "Hello there" None None)
               alice (App.mkUser "alice") demo launch)
    as [Hfresh _];
    [compute_done|reflexivity|decide_closed|reflexivity|reflexivity
    |reflexivity|].
  destruct Hfresh as (Hout & _ & Hjournal); [compute_done|].
  split; [exact Hout|]. rewrite Hjournal. compute_done.
Defined.

(** A caption returned by [createCaption] is listed, from then on, by
    [listCaptions] on its session: the listing is the one from before the
    call followed by the new caption, and the total has grown by one. *)
Theorem created_caption_listed_under_its_session raw context w e w1 :
  server.createCaption raw context w = (Return e, w1) →
  ∃ c,
    e = mkEnvelope true (Some c)
    ∧ ∀ raw' input',
        server.listCaptions_input raw' = Some input' →
        ListCaptionsInput.sessionId input' = Captions.sessionId c →
        outcome (server.listCaptions raw' context w1)
        = Return
            (mkEnvelope true
               (mkListing
                  (filter (λ x, Captions.sessionId x = Captions.sessionId c)
                          (captions (db w)) ++ [c])
                  (S (length
                        (filter
                           (λ x, Captions.sessionId x = Captions.sessionId c)
                           (captions (db w))))))).
Proof.
  intros Hrun.
  destruct (createCaption_success_inv raw context w e w1 Hrun)
    as (input & user & s & c & _ & Huser & Hs & Hid & Hown & He & Hc & _ & Hdb).
  exists c. split; [done|]. intros raw' input' Hparse' Hsid.
  assert (Captions.sessionId c = CreateCaptionInput.sessionId input) as Hcs
    by by rewrite Hc.
  rewrite (listCaptions_run raw' input' context user w1 s); try done.
  - rewrite Hdb. simpl. rewrite Hsid, filter_app, filter_cons_True by done.
    rewrite filter_nil, length_app. simpl.
    by rewrite Nat.add_1_r.
  - by rewrite Hdb.
  - congruence.
Qed.

Lemma created_caption_listed_under_its_session_witness :
  ∃ c,
    outcome (server.createCaption plain_caption alice demo)
    = Return (mkEnvelope true (Some c))
    ∧ outcome (server.listCaptions list_launch alice
                 (world (server.createCaption plain_caption alice demo)))
      = Return (mkEnvelope true (mkListing [launch_a; c] 2)).
Proof.
  edestruct (created_caption_listed_under_its_session plain_caption alice demo)
    as (c & He & Hlist); [reflexivity|].
  exists c. split; [by rewrite <- He|].
  injection He as <-.
  apply (Hlist list_launch (ListCaptionsInput.mk "s-launch")); compute_done.
Defined.

(** ** Deleting and updating a caption *)

Lemma delete_unique_row {R} (hit : R → bool) (l1 l2 : list R) r :
  hit r = true →
  (∀ x, x ∈ l1 → hit x = false) →
  (∀ x, x ∈ l2 → hit x = false) →
  filter (λ x, hit x = false) (l1 ++ r :: l2) = l1 ++ l2.
Proof.
  intros Hr H1 H2.
  rewrite filter_app, filter_cons_False by (rewrite Hr; discriminate).
  by rewrite (filter_all _ l1), (filter_all _ l2).
Qed.

Lemma caption_split w c captionId sessionId :
  unique_keys CaptionsT (db w) →
  c ∈ captions (db w) →
  Captions.id c = captionId → Captions.sessionId c = sessionId →
  ∃ before after,
    captions (db w) = before ++ c :: after
    ∧ astro_db.matches
        (astro_db.and (astro_db.eq (text Captions.id) (Some captionId))
           (astro_db.eq (text Captions.sessionId) (Some sessionId))) c = true
    ∧ (∀ x, x ∈ before ++ after → Captions.id x ≠ captionId).
Proof.
  intros Hnd Hc Hid Hsid.
  destruct (unique_key_split Captions.id (captions (db w)) c Hnd Hc)
    as (before & after & Hsplit & Hb & Ha).
  exists before, after. split; [done|]. split.
  - by apply matches_and_eq_text.
  - intros x Hx. rewrite <- Hid.
    apply elem_of_app in Hx as [Hx|Hx]; [by apply Hb|by apply Ha].
Qed.

Lemma deleteCaption_run_found raw input context user w s c :
  unique_keys CaptionsT (db w) →
  server.deleteCaption_input raw = Some input →
  locals context ≫= App.user = Some user →
  s ∈ sessions (db w) →
  CaptionSessions.id s = DeleteCaptionInput.sessionId input →
  CaptionSessions.userId s = App.id user →
  c ∈ captions (db w) →
  Captions.id c = DeleteCaptionInput.id input →
  Captions.sessionId c = DeleteCaptionInput.sessionId input →
  ∃ before after,
    captions (db w) = before ++ c :: after
    ∧ (∀ x, x ∈ before ++ after →
            Captions.id x ≠ DeleteCaptionInput.id input)
    ∧ server.deleteCaption raw context w
      = (Return (mkEnvelope true ()),
         sent (Delete TCaptions)
              (mkDb (sessions (db w)) (before ++ after) (templates (db w)))
              (sent (Select TCaptionSessions) (db w) w)).
Proof.
  intros Hnd Hparse Huser Hs Hsid Hown Hc Hcid Hcsid.
  destruct (caption_split w c _ _ Hnd Hc Hcid Hcsid)
    as (before & after & Hsplit & Hhit & Hrest).
  exists before, after. split; [done|]. split; [done|].
  unfold server.deleteCaption, defineAction. rewrite Hparse.
  unfold server.deleteCaption_handler, mbind, Async_bind, await.
  rewrite (requireUser_present _ user) by done.
  destruct (getOwnedSession_owned (DeleteCaptionInput.sessionId input)
              (App.id user) w s) as (s' & -> & _); [done..|].
  unfold db_delete; simpl. rewrite Hsplit.
  assert (∀ x, x ∈ before ++ after →
            astro_db.matches
              (astro_db.and
                 (astro_db.eq (text Captions.id)
                    (Some (DeleteCaptionInput.id input)))
                 (astro_db.eq (text Captions.sessionId)
                    (Some (DeleteCaptionInput.sessionId input)))) x = false)
    as Hmiss.
  { intros x Hx. apply matches_and_eq_text_false. intros [Hxid _].
    by apply (Hrest x). }
  destruct (update_unique_row
              (astro_db.matches
                 (astro_db.and
                    (astro_db.eq (text Captions.id)
                       (Some (DeleteCaptionInput.id input)))
                    (astro_db.eq (text Captions.sessionId)
                       (Some (DeleteCaptionInput.sessionId input)))))
              (λ x, x) before after c) as [_ ->]; [done|..].
  { intros x Hx. apply Hmiss, elem_of_app. by left. }
  { intros x Hx. apply Hmiss, elem_of_app. by right. }
  rewrite delete_unique_row; [done..| |].
  - intros x Hx. apply Hmiss, elem_of_app. by left.
  - intros x Hx. apply Hmiss, elem_of_app. by right.
Qed.

Lemma deleteCaption_run_missing raw input context user w s :
  server.deleteCaption_input raw = Some input →
  locals context ≫= App.user = Some user →
  s ∈ sessions (db w) →
  CaptionSessions.id s = DeleteCaptionInput.sessionId input →
  CaptionSessions.userId s = App.id user →
  (∀ x, x ∈ captions (db w) →
        ¬ (Captions.id x = DeleteCaptionInput.id input
           ∧ Captions.sessionId x = DeleteCaptionInput.sessionId input)) →
  outcome (server.deleteCaption raw context w) = Throw caption_not_found
  ∧ db (world (server.deleteCaption raw context w)) = db w.
Proof.
  intros Hparse Huser Hs Hsid Hown Hnone.
  unfold server.deleteCaption, defineAction. rewrite Hparse.
  unfold server.deleteCaption_handler, mbind, Async_bind, await.
  rewrite (requireUser_present _ user) by done.
  destruct (getOwnedSession_owned (DeleteCaptionInput.sessionId input)
              (App.id user) w s) as (s' & -> & _); [done..|].
  unfold db_delete; simpl.
  rewrite filter_none, filter_all; simpl.
  - split; [done|]. by destruct (db w).
  - intros x Hx. apply matches_and_eq_text_false. by apply Hnone.
  - intros x Hx Hm. apply matches_and_eq_text in Hm. by apply (Hnone x).
Qed.

(** [deleteCaption] on a caption stored under a session of the acting user
    succeeds and removes that caption and no other row: the captions before
    and after it stay, in order, and sessions and templates are as they
    were. *)
Theorem deleteCaption_removes_that_caption raw input context user w s c :
  unique_keys CaptionsT (db w) →
  server.deleteCaption_input raw = Some input →
  locals context ≫= App.user = Some user →
  s ∈ sessions (db w) →
  CaptionSessions.id s = DeleteCaptionInput.sessionId input →
  CaptionSessions.userId s = App.id user →
  c ∈ captions (db w) →
  Captions.id c = DeleteCaptionInput.id input →
  Captions.sessionId c = DeleteCaptionInput.sessionId input →
  ∃ before after,
    captions (db w) = before ++ c :: after
    ∧ outcome (server.deleteCaption raw context w)
      = Return (mkEnvelope true ())
    ∧ db (world (server.deleteCaption raw context w))
      = mkDb (sessions (db w)) (before ++ after) (templates (db w))
    ∧ c ∉ captions (db (world (server.deleteCaption raw context w))).
Proof.
  intros Hnd Hparse Huser Hs Hsid Hown Hc Hcid Hcsid.
  destruct (deleteCaption_run_found raw input context user w s c)
    as (before & after & Hsplit & Hrest & ->); [done..|].
  exists before, after. split; [done|]. split; [done|]. split; [done|].
  simpl. intros Hin. by apply (Hrest c).
Qed.

Lemma deleteCaption_removes_that_caption_witness :
  outcome (server.deleteCaption remove_launch_a alice demo)
  = Return (mkEnvelope true ())
  ∧ launch_a ∉ captions (db (world (server.deleteCaption remove_launch_a
                                      alice demo))).
Proof.
  destruct (deleteCaption_removes_that_caption remove_launch_a
              (DeleteCaptionInput.mk "c-launch-a" "s-launch")
              alice (App.mkUser "alice") demo launch launch_a)
    as (before & after & _ & Hout & _ & Hgone);
    [decide_closed|compute_done|reflexivity|decide_closed|reflexivity
    |reflexivity|decide_closed|reflexivity|reflexivity|].
  by split.
Defined.

(** A delete cannot be repeated: after [deleteCaption] has succeeded, the
    same request in the resulting world throws NOT_FOUND and changes
    nothing. *)
Theorem deleteCaption_twice_not_found raw context w e w1 :
  unique_keys CaptionsT (db w) →
  server.deleteCaption raw context w = (Return e, w1) →
  outcome (server.deleteCaption raw context w1) = Throw caption_not_found
  ∧ db (world (server.deleteCaption raw context w1)) = db w1.
Proof.
  intros Hnd Hrun.
  destruct (server.deleteCaption_input raw) as [input|] eqn:Hparse;
    [|by unfold server.deleteCaption, defineAction in Hrun;
         rewrite Hparse in Hrun].
  destruct (locals context ≫= App.user) as [user|] eqn:Huser.
  2:{ unfold server.deleteCaption, defineAction in Hrun.
      rewrite Hparse in Hrun.
      unfold server.deleteCaption_handler, mbind, Async_bind, await in Hrun.
      by rewrite requireUser_absent in Hrun. }
  destruct (getOwnedSession_spec (DeleteCaptionInput.sessionId input)
              (App.id user) w) as [(s & Hguard & Hs & Hid & Hown)|[Hguard _]].
  2:{ unfold server.deleteCaption, defineAction in Hrun.
      rewrite Hparse in Hrun.
      unfold server.deleteCaption_handler, mbind, Async_bind, await in Hrun.
      rewrite (requireUser_present _ user), Hguard in Hrun by done. done. }
  destruct (decide (Exists (λ c, Captions.id c = DeleteCaptionInput.id input
                                 ∧ Captions.sessionId c
                                   = DeleteCaptionInput.sessionId input)
                           (captions (db w))))
    as [Hsome|Hnone]; rewrite Exists_exists in *;
    [destruct Hsome as (c & Hc & Hcid & Hcsid)|].
  - destruct (deleteCaption_run_found raw input context user w s c)
      as (before & after & Hsplit & Hrest & Heq); [done..|].
    rewrite Heq in Hrun. injection Hrun as <- <-.
    apply (deleteCaption_run_missing raw input context user _ s);
      [done..|].
    simpl. intros x Hx [Hxid _]. by apply (Hrest x).
  - destruct (deleteCaption_run_missing raw input context user w s)
      as [Hout _]; [done..| |].
    + intros x Hx [Hxid Hxsid]. apply Hnone. by exists x.
    + unfold outcome in Hout. rewrite Hrun in Hout. done.
Qed.

Lemma deleteCaption_twice_not_found_witness :
  outcome (server.deleteCaption remove_launch_a alice
             (world (server.deleteCaption remove_launch_a alice demo)))
  = Throw caption_not_found.
Proof.
  edestruct (deleteCaption_twice_not_found remove_launch_a alice demo)
    as [Hout _]; [decide_closed|reflexivity|].
  exact Hout.
Defined.

Lemma updateCaption_input_refined raw input :
  server.updateCaption_input raw = Some input →
  defined (UpdateCaptionInput.platform input)
  || defined (UpdateCaptionInput.tone input)
  || defined (UpdateCaptionInput.variantLabel input)
  || defined (UpdateCaptionInput.captionText input)
  || defined (UpdateCaptionInput.hashtags input) = true.
Proof.
  unfold server.updateCaption_input, z.refine.
  destruct (_ ≫= _) as [parsed|]; [|done].
  destruct (defined _ || _ || _ || _ || _) eqn:Hcheck; [|done].
  by intros [= <-].
Qed.

Lemma updateCaptionSession_input_refined raw input :
  server.updateCaptionSession_input raw = Some input →
  defined (UpdateCaptionSessionInput.name input)
  || defined (UpdateCaptionSessionInput.description input)
  || defined (UpdateCaptionSessionInput.coreMessage input)
  || defined (UpdateCaptionSessionInput.targetAudience input) = true.
Proof.
  unfold server.updateCaptionSession_input, z.refine.
  destruct (_ ≫= _) as [parsed|]; [|done].
  destruct (defined _ || _ || _ || _) eqn:Hcheck; [|done].
  by intros [= <-].
Qed.

(** The [set] object of [updateCaption], as the handler builds it. *)
Lemma updateCaption_set_nonempty input :
  defined (UpdateCaptionInput.platform input)
  || defined (UpdateCaptionInput.tone input)
  || defined (UpdateCaptionInput.variantLabel input)
  || defined (UpdateCaptionInput.captionText input)
  || defined (UpdateCaptionInput.hashtags input) = true →
  spread (UpdateCaptionInput.platform input) Captions.set_platform
  ++ spread (UpdateCaptionInput.tone input) Captions.set_tone
  ++ spread (UpdateCaptionInput.variantLabel input) Captions.set_variantLabel
  ++ spread (UpdateCaptionInput.captionText input) Captions.set_captionText
  ++ spread (UpdateCaptionInput.hashtags input) Captions.set_hashtags ≠ [].
Proof.
  destruct input as [i sid [p|] [t|] [v|] [c|] [h|]]; simpl; done.
Qed.

Lemma db_update_nonempty {R} (T : TableDef R) (s : list (R → R)) f w :
  s ≠ [] →
  db_update T s f w
  = (Return (apply_set s <$>
               filter (λ r, astro_db.matches f r = true) (rows T (db w))),
     sent (Update (table T))
          (with_rows T
             ((λ r, if astro_db.matches f r then apply_set s r else r)
                <$> rows T (db w)) (db w)) w).
Proof. intros Hs. unfold db_update. by destruct s. Qed.

Lemma updateCaption_run_found raw input context user w s c :
  unique_keys CaptionsT (db w) →
  server.updateCaption_input raw = Some input →
  locals context ≫= App.user = Some user →
  s ∈ sessions (db w) →
  CaptionSessions.id s = UpdateCaptionInput.sessionId input →
  CaptionSessions.userId s = App.id user →
  c ∈ captions (db w) →
  Captions.id c = UpdateCaptionInput.id input →
  Captions.sessionId c = UpdateCaptionInput.sessionId input →
  ∃ before after,
    captions (db w) = before ++ c :: after
    ∧ server.updateCaption raw context w
      = (let new :=
           apply_set
             (spread (UpdateCaptionInput.platform input) Captions.set_platform
              ++ spread (UpdateCaptionInput.tone input) Captions.set_tone
              ++ spread (UpdateCaptionInput.variantLabel input)
                   Captions.set_variantLabel
              ++ spread (UpdateCaptionInput.captionText input)
                   Captions.set_captionText
              ++ spread (UpdateCaptionInput.hashtags input)
                   Captions.set_hashtags) c in
         (Return (mkEnvelope true (Some new)),
          sent (Update TCaptions)
               (mkDb (sessions (db w)) (before ++ new :: after)
                     (templates (db w)))
               (sent (Select TCaptions) (db w)
                     (sent (Select TCaptionSessions) (db w) w)))).
Proof.
  intros Hnd Hparse Huser Hs Hsid Hown Hc Hcid Hcsid.
  destruct (caption_split w c _ _ Hnd Hc Hcid Hcsid)
    as (before & after & Hsplit & Hhit & Hrest).
  exists before, after. split; [done|].
  unfold server.updateCaption, defineAction. rewrite Hparse.
  unfold server.updateCaption_handler, mbind, Async_bind, await.
  rewrite (requireUser_present _ user) by done.
  destruct (getOwnedSession_owned (UpdateCaptionInput.sessionId input)
              (App.id user) w s) as (s' & -> & _); [done..|].
  pose proof (updateCaption_set_nonempty input
                (updateCaption_input_refined raw input Hparse)) as Hset.
  unfold db_select; simpl. rewrite Hsplit.
  destruct (update_unique_row
              (astro_db.matches
                 (astro_db.and
                    (astro_db.eq (text Captions.id)
                       (Some (UpdateCaptionInput.id input)))
                    (astro_db.eq (text Captions.sessionId)
                       (Some (UpdateCaptionInput.sessionId input)))))
              (λ x, x) before after c) as [_ ->]; [done|..].
  { intros x Hx. apply matches_and_eq_text_false. intros [Hxid _].
    apply (Hrest x); [|done]. apply elem_of_app. by left. }
  { intros x Hx. apply matches_and_eq_text_false. intros [Hxid _].
    apply (Hrest x); [|done]. apply elem_of_app. by right. }
  simpl. rewrite db_update_nonempty by done.
  cbn [rows with_rows table CaptionsT db sent captions].
  rewrite Hsplit.
  destruct (update_unique_row
              (astro_db.matches
                 (astro_db.eq (text Captions.id)
                    (Some (UpdateCaptionInput.id input))))
              (apply_set
                 (spread (UpdateCaptionInput.platform input)
                    Captions.set_platform
                  ++ spread (UpdateCaptionInput.tone input) Captions.set_tone
                  ++ spread (UpdateCaptionInput.variantLabel input)
                       Captions.set_variantLabel
                  ++ spread (UpdateCaptionInput.captionText input)
                       Captions.set_captionText
                  ++ spread (UpdateCaptionInput.hashtags input)
                       Captions.set_hashtags))
              before after c) as [-> ->].
  { by apply matches_eq_text. }
  { intros x Hx. apply matches_eq_text_false.
    apply (Hrest x). apply elem_of_app. by left. }
  { intros x Hx. apply matches_eq_text_false.
    apply (Hrest x). apply elem_of_app. by right. }
  done.
Qed.

(** [updateCaption] on a caption stored under a session of the acting user
    succeeds and rewrites that one row: each field the request supplies
    takes the supplied value, each field it does not supply keeps its value,
    and [id], [sessionId] and [createdAt] never change; the new row is
    returned and every other row of the store is as it was. *)
Theorem updateCaption_partial_update raw input context user w s c :
  unique_keys CaptionsT (db w) →
  server.updateCaption_input raw = Some input →
  locals context ≫= App.user = Some user →
  s ∈ sessions (db w) →
  CaptionSessions.id s = UpdateCaptionInput.sessionId input →
  CaptionSessions.userId s = App.id user →
  c ∈ captions (db w) →
  Captions.id c = UpdateCaptionInput.id input →
  Captions.sessionId c = UpdateCaptionInput.sessionId input →
  ∃ before after new,
    captions (db w) = before ++ c :: after
    ∧ outcome (server.updateCaption raw context w)
      = Return (mkEnvelope true (Some new))
    ∧ db (world (server.updateCaption raw context w))
      = mkDb (sessions (db w)) (before ++ new :: after) (templates (db w))
    ∧ Captions.id new = Captions.id c
    ∧ Captions.sessionId new = Captions.sessionId c
    ∧ Captions.createdAt new = Captions.createdAt c
    ∧ Captions.platform new
      = from_option Some (Captions.platform c)
                    (UpdateCaptionInput.platform input)
    ∧ Captions.tone new
      = from_option Some (Captions.tone c) (UpdateCaptionInput.tone input)
    ∧ Captions.variantLabel new
      = from_option Some (Captions.variantLabel c)
                    (UpdateCaptionInput.variantLabel input)
    ∧ Captions.captionText new
      = default (Captions.captionText c)
                (UpdateCaptionInput.captionText input)
    ∧ Captions.hashtags new
      = from_option Some (Captions.hashtags c)
                    (UpdateCaptionInput.hashtags input).
Proof.
  intros Hnd Hparse Huser Hs Hsid Hown Hc Hcid Hcsid.
  destruct (updateCaption_run_found raw input context user w s c)
    as (before & after & Hsplit & ->); [done..|].
  eexists before, after, _. split; [done|]. split; [reflexivity|].
  split; [reflexivity|].
  destruct input as [i sid [p|] [t|] [v|] [x|] [h|]]; simpl; done.
Qed.

Lemma updateCaption_partial_update_witness :
  ∃ new,
    outcome (server.updateCaption retouch_launch_a alice demo)
    = Return (mkEnvelope true (Some new))
    ∧ Captions.tone new = Some "fun"
    ∧ Captions.captionText new = "New drop!".
Proof.
  destruct (updateCaption_partial_update retouch_launch_a
              (UpdateCaptionInput.mk "c-launch-a" "s-launch" None
                 (Some "fun") None None (Some "#new"))
              alice (App.mkUser "alice") demo launch launch_a)
    as (before & after & new & _ & Hout & _ & _ & _ & _ & _ & Htone & _
        & Htext & _);
    [decide_closed|compute_done|reflexivity|decide_closed|reflexivity
    |reflexivity|decide_closed|reflexivity|reflexivity|].
  exists new. by split.
Defined.

(** ** The failures of each action *)

Section failures.
Context (allowed : list Failure).

Lemma may_resolve {A} (a : A) : may_throw allowed (resolve a).
Proof. by intros w. Qed.

Lemma may_throw_listed {A} e : e ∈ allowed → may_throw allowed (@throw A e).
Proof. by intros He w. Qed.

Lemma may_await {A B} (m : Async A) (k : A → Async B) :
  may_throw allowed m → (∀ a, may_throw allowed (k a)) →
  may_throw allowed (m ≫= k).
Proof.
  intros Hm Hk w. unfold mbind, Async_bind, await.
  specialize (Hm w). destruct (m w) as [[a|e] w1]; [apply Hk|done].
Qed.

Lemma may_new_Date : may_throw allowed new_Date.
Proof. by intros w. Qed.

Lemma may_randomUUID : may_throw allowed randomUUID.
Proof. by intros w. Qed.

Lemma may_select {R} (T : TableDef R) f : may_throw allowed (db_select T f).
Proof. by intros w. Qed.

Lemma may_delete {R} (T : TableDef R) f : may_throw allowed (db_delete T f).
Proof. by intros w. Qed.

Lemma may_insert {R} (T : TableDef R) r :
  key_taken ∈ allowed → may_throw allowed (db_insert T r).
Proof. intros He w. unfold db_insert. by case_bool_decide. Qed.

Lemma may_update {R} (T : TableDef R) s f :
  s ≠ [] → may_throw allowed (db_update T s f).
Proof. intros Hs w. by rewrite db_update_nonempty. Qed.

Lemma may_requireUser context :
  unauthorized ∈ allowed → may_throw allowed (requireUser context).
Proof. intros He w. unfold requireUser. by destruct (_ ≫= _). Qed.

Lemma may_getOwnedSession sessionId userId :
  session_not_found ∈ allowed →
  may_throw allowed (getOwnedSession sessionId userId).
Proof.
  intros He. apply may_await; [apply may_select|].
  intros found. destruct (head found); [apply may_resolve|].
  by apply may_throw_listed.
Qed.

Lemma may_ensureTemplateAccessible templateId userId :
  template_not_found ∈ allowed → template_forbidden ∈ allowed →
  may_throw allowed (ensureTemplateAccessible templateId userId).
Proof.
  intros Hn Hf. apply may_await; [apply may_select|].
  intros found. destruct (head found) as [t|];
    [|by apply may_throw_listed].
  destruct (truthy _ && _); [by apply may_throw_listed|apply may_resolve].
Qed.

End failures.

Ltac listed := solve [repeat constructor].

Ltac failures :=
  repeat first
    [ apply may_resolve | apply may_new_Date | apply may_randomUUID
    | apply may_select | apply may_delete
    | apply may_insert; listed
    | apply may_requireUser; listed
    | apply may_getOwnedSession; listed
    | apply may_ensureTemplateAccessible; listed
    | apply may_throw_listed; listed
    | apply may_await; [|intros ?]
    | match goal with
      | |- may_throw _ (match ?x with _ => _ end) => destruct x
      end ].

(** How each action can end: with its result, or with one of the failures
    listed for it, and no other.  In particular the session actions never
    answer FORBIDDEN, only the three inserting actions can meet the store's
    refusal of a primary key in use, and an update never reaches the store
    with nothing to set. *)
Theorem action_failures raw body context :
  may_throw [invalid_input; unauthorized; key_taken]
    (server.createCaptionSession raw context)
  ∧ may_throw [invalid_input; unauthorized; session_not_found]
      (server.updateCaptionSession raw context)
  ∧ may_throw [invalid_input; unauthorized]
      (server.listCaptionSessions body context)
  ∧ may_throw [invalid_input; unauthorized; session_not_found;
               template_not_found; template_forbidden; key_taken]
      (server.createCaption raw context)
  ∧ may_throw [invalid_input; unauthorized; session_not_found;
               caption_not_found]
      (server.updateCaption raw context)
  ∧ may_throw [invalid_input; unauthorized; session_not_found;
               caption_not_found]
      (server.deleteCaption raw context)
  ∧ may_throw [invalid_input; unauthorized; session_not_found]
      (server.listCaptions raw context)
  ∧ may_throw [invalid_input; unauthorized; key_taken]
      (server.createTemplate raw context)
  ∧ may_throw [invalid_input; unauthorized]
      (server.listTemplates body context).
Proof.
  repeat match goal with |- _ ∧ _ => split end.
  - unfold server.createCaptionSession, defineAction.
    destruct (server.createCaptionSession_input raw); [|failures].
    unfold server.createCaptionSession_handler. failures.
  - unfold server.updateCaptionSession, defineAction.
    destruct (server.updateCaptionSession_input raw) as [input|]; [|failures].
    unfold server.updateCaptionSession_handler. failures.
    apply may_update.
    destruct input as [i [n|] [d|] [c|] [t|]]; simpl; done.
  - unfold server.listCaptionSessions, defineAction.
    destruct (server.listCaptionSessions_input body); [|failures].
    unfold server.listCaptionSessions_handler. failures.
  - unfold server.createCaption, defineAction.
    destruct (server.createCaption_input raw); [|failures].
    unfold server.createCaption_handler. failures.
  - unfold server.updateCaption, defineAction.
    destruct (server.updateCaption_input raw) as [input|] eqn:Hparse;
      [|failures].
    unfold server.updateCaption_handler. failures.
    apply may_update, updateCaption_set_nonempty.
    by apply (updateCaption_input_refined raw).
  - unfold server.deleteCaption, defineAction.
    destruct (server.deleteCaption_input raw); [|failures].
    unfold server.deleteCaption_handler. failures.
  - unfold server.listCaptions, defineAction.
    destruct (server.listCaptions_input raw); [|failures].
    unfold server.listCaptions_handler. failures.
  - unfold server.createTemplate, defineAction.
    destruct (server.createTemplate_input raw); [|failures].
    unfold server.createTemplate_handler. failures.
  - unfold server.listTemplates, defineAction.
    destruct (server.listTemplates_input body); [|failures].
    unfold server.listTemplates_handler. failures.
Qed.

(** ** Requests without a user, and what validation guarantees *)

Lemma action_without_user {I P O} (input : I → option P)
    (handler : P → ActionAPIContext → Async O) raw context w :
  (∀ parsed, handler parsed context w = (Throw unauthorized, w)) →
  turned_away w (defineAction input handler raw context w).
Proof.
  intros Hh. unfold turned_away, defineAction.
  destruct (input raw) as [parsed|].
  - rewrite Hh. split; [done|by right].
  - split; [done|by left].
Qed.

(** Seen from outside, an action called without an authenticated user ends
    in BAD_REQUEST (when the request does not pass validation, which comes
    first) or in UNAUTHORIZED, and the world is exactly the one it started
    from: whatever the request, nothing is read from or written to the
    store. *)
Theorem unauthenticated_requests_never_reach_the_store raw body context w :
  locals context ≫= App.user = None →
  turned_away w (server.createCaptionSession raw context w)
  ∧ turned_away w (server.updateCaptionSession raw context w)
  ∧ turned_away w (server.listCaptionSessions body context w)
  ∧ turned_away w (server.createCaption raw context w)
  ∧ turned_away w (server.updateCaption raw context w)
  ∧ turned_away w (server.deleteCaption raw context w)
  ∧ turned_away w (server.listCaptions raw context w)
  ∧ turned_away w (server.createTemplate raw context w)
  ∧ turned_away w (server.listTemplates body context w).
Proof.
  intros Habsent.
  repeat match goal with |- _ ∧ _ => split end;
    apply action_without_user; intros parsed.
  - unfold server.createCaptionSession_handler, mbind, Async_bind, await.
    by rewrite requireUser_absent.
  - unfold server.updateCaptionSession_handler, mbind, Async_bind, await.
    by rewrite requireUser_absent.
  - unfold server.listCaptionSessions_handler, mbind, Async_bind, await.
    by rewrite requireUser_absent.
  - unfold server.createCaption_handler, mbind, Async_bind, await.
    by rewrite requireUser_absent.
  - unfold server.updateCaption_handler, mbind, Async_bind, await.
    by rewrite requireUser_absent.
  - unfold server.deleteCaption_handler, mbind, Async_bind, await.
    by rewrite requireUser_absent.
  - unfold server.listCaptions_handler, mbind, Async_bind, await.
    by rewrite requireUser_absent.
  - unfold server.createTemplate_handler, mbind, Async_bind, await.
    by rewrite requireUser_absent.
  - unfold server.listTemplates_handler, mbind, Async_bind, await.
    by rewrite requireUser_absent.
Qed.

Lemma unauthenticated_requests_never_reach_the_store_witness :
  turned_away demo (server.createCaption plain_caption anonymous demo)
  ∧ turned_away demo (server.deleteCaption None signed_out demo).
Proof.
  split.
  - apply (unauthenticated_requests_never_reach_the_store plain_caption
             None anonymous demo). reflexivity.
  - apply (unauthenticated_requests_never_reach_the_store None None
             signed_out demo). reflexivity.
Defined.

Lemma min1_nonempty v s : z.min 1 z.string v = Some s → s ≠ "".
Proof.
  unfold z.min. destruct (z.string v) as [s'|]; [|done].
  case_bool_decide as Hlen; [|done]. intros [= <-] ->. simpl in Hlen. lia.
Qed.

Ltac parse_inv H :=
  repeat (simpl in H;
          match type of H with
          | context [z.min ?n ?p ?v] =>
              let E := fresh "Emin" in destruct (z.min n p v) eqn:E
          | context [z.optional ?p ?v] =>
              let E := fresh "Eopt" in destruct (z.optional p v) eqn:E
          end);
  simpl in H; try discriminate.

(** What a handler may rely on after validation: the required strings
    ([name], [body], [captionText], [id], [sessionId]) are non-empty, and an
    update request carries at least one updatable field. *)
Theorem validated_inputs raw :
  (∀ input, server.createCaptionSession_input raw = Some input →
            CreateCaptionSessionInput.name input ≠ "")
  ∧ (∀ input, server.updateCaptionSession_input raw = Some input →
              UpdateCaptionSessionInput.id input ≠ ""
              ∧ UpdateCaptionSessionInput.name input ≠ Some ""
              ∧ (defined (UpdateCaptionSessionInput.name input)
                 || defined (UpdateCaptionSessionInput.description input)
                 || defined (UpdateCaptionSessionInput.coreMessage input)
                 || defined (UpdateCaptionSessionInput.targetAudience input)
                 = true))
  ∧ (∀ input, server.createCaption_input raw = Some input →
              CreateCaptionInput.sessionId input ≠ ""
              ∧ CreateCaptionInput.captionText input ≠ "")
  ∧ (∀ input, server.updateCaption_input raw = Some input →
              UpdateCaptionInput.id input ≠ ""
              ∧ UpdateCaptionInput.sessionId input ≠ ""
              ∧ (defined (UpdateCaptionInput.platform input)
                 || defined (UpdateCaptionInput.tone input)
                 || defined (UpdateCaptionInput.variantLabel input)
                 || defined (UpdateCaptionInput.captionText input)
                 || defined (UpdateCaptionInput.hashtags input) = true))
  ∧ (∀ input, server.deleteCaption_input raw = Some input →
              DeleteCaptionInput.id input ≠ ""
              ∧ DeleteCaptionInput.sessionId input ≠ "")
  ∧ (∀ input, server.listCaptions_input raw = Some input →
              ListCaptionsInput.sessionId input ≠ "")
  ∧ (∀ input, server.createTemplate_input raw = Some input →
              CreateTemplateInput.name input ≠ ""
              ∧ CreateTemplateInput.body input ≠ "").
Proof.
  repeat match goal with |- _ ∧ _ => split end; intros input Hparse.
  - unfold server.createCaptionSession_input in Hparse.
    destruct raw as [o|]; [|done]. parse_inv Hparse.
    injection Hparse as <-. simpl. by eapply min1_nonempty.
  - pose proof (updateCaptionSession_input_refined raw input Hparse) as Hany.
    unfold server.updateCaptionSession_input, z.refine in Hparse.
    destruct raw as [o|]; [|done]. parse_inv Hparse.
    destruct (defined _ || _ || _ || _); [|done].
    injection Hparse as <-. simpl. split; [by eapply min1_nonempty|].
    split; [|done].
    unfold z.optional in *. destruct (o !! "name") as [v|]; [|by simplify_eq].
    destruct (z.min 1 z.string (Some v)) as [n|] eqn:Hn; [|done].
    simplify_eq/=. intros [= ->]. by eapply min1_nonempty.
  - unfold server.createCaption_input in Hparse.
    destruct raw as [o|]; [|done]. parse_inv Hparse.
    injection Hparse as <-. simpl. split; by eapply min1_nonempty.
  - pose proof (updateCaption_input_refined raw input Hparse) as Hany.
    unfold server.updateCaption_input, z.refine in Hparse.
    destruct raw as [o|]; [|done]. parse_inv Hparse.
    destruct (defined _ || _ || _ || _ || _); [|done].
    injection Hparse as <-. simpl.
    split; [by eapply min1_nonempty|]. split; [by eapply min1_nonempty|done].
  - unfold server.deleteCaption_input in Hparse.
    destruct raw as [o|]; [|done]. parse_inv Hparse.
    injection Hparse as <-. simpl. split; by eapply min1_nonempty.
  - unfold server.listCaptions_input in Hparse.
    destruct raw as [o|]; [|done]. parse_inv Hparse.
    injection Hparse as <-. simpl. by eapply min1_nonempty.
  - unfold server.createTemplate_input in Hparse.
    destruct raw as [o|]; [|done]. parse_inv Hparse.
    injection Hparse as <-. simpl. split; by eapply min1_nonempty.
Qed.

Lemma validated_inputs_witness :
  ∃ input,
    server.createCaption_input plain_caption = Some input
    ∧ CreateCaptionInput.sessionId input ≠ ""
    ∧ CreateCaptionInput.captionText input ≠ "".
Proof.
  destruct (validated_inputs plain_caption) as (_ & _ & Hcreate & _).
  eexists. split; [reflexivity|]. apply Hcreate. reflexivity.
Defined.

(** A non-empty [captionText] is demanded when a caption is created, not
    when it is updated: [createCaption] refuses an empty text before any
    store access, while [updateCaption] accepts one and stores it. *)
Theorem captionText_checked_on_creation_only :
  (∀ raw context w,
     raw ≫= (λ o, o !! "captionText") = Some (JsString "") →
     server.createCaption raw context w = (Throw invalid_input, w))
  ∧ (∀ raw input context user w s c,
       unique_keys CaptionsT (db w) →
       server.updateCaption_input raw = Some input →
       locals context ≫= App.user = Some user →
       s ∈ sessions (db w) →
       CaptionSessions.id s = UpdateCaptionInput.sessionId input →
       CaptionSessions.userId s = App.id user →
       c ∈ captions (db w) →
       Captions.id c = UpdateCaptionInput.id input →
       Captions.sessionId c = UpdateCaptionInput.sessionId input →
       UpdateCaptionInput.captionText input = Some "" →
       ∃ new,
         outcome (server.updateCaption raw context w)
         = Return (mkEnvelope true (Some new))
         ∧ new ∈ captions (db (world (server.updateCaption raw context w)))
         ∧ Captions.id new = Captions.id c
         ∧ Captions.captionText new = "").
Proof.
  split.
  - intros raw context w Hempty.
    unfold server.createCaption, defineAction.
    replace (server.createCaption_input raw) with (@None CreateCaptionInput.t);
      [done|].
    unfold server.createCaption_input.
    destruct raw as [o|]; simpl in *; [|done].
    rewrite Hempty.
    destruct (z.min 1 z.string (o !! "sessionId")); simpl; [|done].
    destruct (z.optional z.string (o !! "platform")); simpl; [|done].
    destruct (z.optional z.string (o !! "tone")); simpl; [|done].
    by destruct (z.optional z.string (o !! "variantLabel")).
  - intros raw input context user w s c Hnd Hparse Huser Hs Hsid Hown Hc Hcid
      Hcsid Hblank.
    destruct (updateCaption_run_found raw input context user w s c)
      as (before & after & Hsplit & ->); [done..|].
    eexists. split; [reflexivity|]. simpl. split.
    + apply elem_of_app. right. left.
    + destruct input as [i sid [p|] [t|] [v|] [x|] [h|]]; simpl in *;
        by simplify_eq.
Qed.

Lemma captionText_checked_on_creation_only_witness :
  ∃ new,
    outcome (server.updateCaption blank_launch_a alice demo)
    = Return (mkEnvelope true (Some new))
    ∧ Captions.captionText new = "".
Proof.
  destruct captionText_checked_on_creation_only as [_ Hupdate].
  destruct (Hupdate blank_launch_a
              (UpdateCaptionInput.mk "c-launch-a" "s-launch" None None None
                 (Some "") None)
              alice (App.mkUser "alice") demo launch launch_a)
    as (new & Hout & _ & _ & Htext);
    [decide_closed|compute_done|reflexivity|decide_closed|reflexivity
    |reflexivity|decide_closed|reflexivity|reflexivity|reflexivity|].
  exists new. by split.
Defined.

(** ** What belongs to other users is out of reach *)

Lemma session_set_nonempty input now :
  spread (UpdateCaptionSessionInput.name input) CaptionSessions.set_name
  ++ spread (UpdateCaptionSessionInput.description input)
       CaptionSessions.set_description
  ++ spread (UpdateCaptionSessionInput.coreMessage input)
       CaptionSessions.set_coreMessage
  ++ spread (UpdateCaptionSessionInput.targetAudience input)
       CaptionSessions.set_targetAudience
  ++ [CaptionSessions.set_updatedAt now] ≠ [].
Proof. destruct input as [i [n|] [d|] [c|] [t|]]; simpl; done. Qed.

Lemma session_set_keeps_owner input now r :
  CaptionSessions.userId
    (apply_set
       (spread (UpdateCaptionSessionInput.name input) CaptionSessions.set_name
        ++ spread (UpdateCaptionSessionInput.description input)
             CaptionSessions.set_description
        ++ spread (UpdateCaptionSessionInput.coreMessage input)
             CaptionSessions.set_coreMessage
        ++ spread (UpdateCaptionSessionInput.targetAudience input)
             CaptionSessions.set_targetAudience
        ++ [CaptionSessions.set_updatedAt now]) r)
  = CaptionSessions.userId r.
Proof.
  apply (apply_set_key CaptionSessions.userId).
  repeat (apply Forall_app; split);
    try (apply (spread_keeps_key CaptionSessions.userId); done).
  by repeat constructor.
Qed.

Lemma caption_set_keeps_session input r :
  Captions.sessionId
    (apply_set
       (spread (UpdateCaptionInput.platform input) Captions.set_platform
        ++ spread (UpdateCaptionInput.tone input) Captions.set_tone
        ++ spread (UpdateCaptionInput.variantLabel input)
             Captions.set_variantLabel
        ++ spread (UpdateCaptionInput.captionText input)
             Captions.set_captionText
        ++ spread (UpdateCaptionInput.hashtags input) Captions.set_hashtags)
       r)
  = Captions.sessionId r.
Proof.
  apply (apply_set_key Captions.sessionId).
  repeat (apply Forall_app; split);
    apply (spread_keeps_key Captions.sessionId); done.
Qed.

Lemma updateCaptionSession_run_found raw input context user w old :
  unique_keys CaptionSessionsT (db w) →
  server.updateCaptionSession_input raw = Some input →
  locals context ≫= App.user = Some user →
  old ∈ sessions (db w) →
  CaptionSessions.id old = UpdateCaptionSessionInput.id input →
  CaptionSessions.userId old = App.id user →
  ∃ before after new,
    sessions (db w) = before ++ old :: after
    ∧ CaptionSessions.userId new = App.id user
    ∧ db (world (server.updateCaptionSession raw context w))
      = mkDb (before ++ new :: after) (captions (db w)) (templates (db w)).
Proof.
  intros Hnd Hparse Huser Hold Hid Hown.
  destruct (unique_key_split CaptionSessions.id (sessions (db w)) old Hnd Hold)
    as (before & after & Hsplit & Hbefore & Hafter).
  exists before, after. eexists. split; [done|].
  unfold server.updateCaptionSession, defineAction. rewrite Hparse.
  unfold server.updateCaptionSession_handler, mbind, Async_bind, await.
  rewrite (requireUser_present _ user) by done.
  destruct (getOwnedSession_owned (UpdateCaptionSessionInput.id input)
              (App.id user) w old) as (s' & -> & _); [done..|].
  unfold new_Date. rewrite db_update_nonempty by apply session_set_nonempty.
  cbn [rows with_rows table CaptionSessionsT db sent sessions world snd
       resolve clock].
  rewrite Hsplit.
  destruct (update_unique_row
              (astro_db.matches
                 (astro_db.eq (text CaptionSessions.id)
                    (Some (UpdateCaptionSessionInput.id input))))
              (apply_set
                 (spread (UpdateCaptionSessionInput.name input)
                    CaptionSessions.set_name
                  ++ spread (UpdateCaptionSessionInput.description input)
                       CaptionSessions.set_description
                  ++ spread (UpdateCaptionSessionInput.coreMessage input)
                       CaptionSessions.set_coreMessage
                  ++ spread (UpdateCaptionSessionInput.targetAudience input)
                       CaptionSessions.set_targetAudience
                  ++ [CaptionSessions.set_updatedAt (clock w)]))
              before after old) as [-> _].
  { by apply matches_eq_text. }
  { intros x Hx. apply matches_eq_text_false. rewrite <- Hid. by apply Hbefore. }
  { intros x Hx. apply matches_eq_text_false. rewrite <- Hid. by apply Hafter. }
  split; [|reflexivity].
  by rewrite session_set_keeps_owner.
Qed.

Lemma elem_of_replaced {R} (l1 l2 : list R) (old new x : R) :
  x ≠ old → x ≠ new → x ∈ l1 ++ new :: l2 ↔ x ∈ l1 ++ old :: l2.
Proof. intros Ho Hn. rewrite !elem_of_app, !elem_of_cons. tauto. Qed.

Lemma elem_of_removed {R} (l1 l2 : list R) (old x : R) :
  x ≠ old → x ∈ l1 ++ l2 ↔ x ∈ l1 ++ old :: l2.
Proof. intros Ho. rewrite !elem_of_app, !elem_of_cons. tauto. Qed.

Lemma elem_of_appended {R} (l : list R) (new x : R) :
  x ≠ new → x ∈ l ++ [new] ↔ x ∈ l.
Proof.
  intros Hn. rewrite elem_of_app, list_elem_of_singleton. tauto.
Qed.

(** No action reaches another user's session.  Whatever the request, a
    session whose [userId] is not the acting user's id is stored after the
    action exactly when it was stored before: it is neither changed nor
    removed, and no such session is created. *)
Theorem other_users_sessions_untouched raw body context w s :
  unique_keys CaptionSessionsT (db w) →
  (∀ user, locals context ≫= App.user = Some user →
           CaptionSessions.userId s ≠ App.id user) →
  stays sessions s w (server.createCaptionSession raw context w)
  ∧ stays sessions s w (server.updateCaptionSession raw context w)
  ∧ stays sessions s w (server.listCaptionSessions body context w)
  ∧ stays sessions s w (server.createCaption raw context w)
  ∧ stays sessions s w (server.updateCaption raw context w)
  ∧ stays sessions s w (server.deleteCaption raw context w)
  ∧ stays sessions s w (server.listCaptions raw context w)
  ∧ stays sessions s w (server.createTemplate raw context w)
  ∧ stays sessions s w (server.listTemplates body context w).
Proof.
  intros Hnd Hother. unfold stays.
  assert (∀ {O} (m : Async O),
            leaves sessions m →
            s ∈ sessions (db (world (m w))) ↔ s ∈ sessions (db w)) as Hframe.
  { intros O m Hm. by rewrite (Hm w). }
  split; [|split].
  3:{ repeat match goal with |- _ ∧ _ => split end; apply Hframe.
      all: unfold server.listCaptionSessions, server.createCaption,
        server.updateCaption, server.deleteCaption, server.listCaptions,
        server.createTemplate, server.listTemplates,
        server.listCaptionSessions_handler, server.createCaption_handler,
        server.updateCaption_handler, server.deleteCaption_handler,
        server.listCaptions_handler, server.createTemplate_handler,
        server.listTemplates_handler.
      all: frame. }
  - destruct (server.createCaptionSession_input raw) as [input|] eqn:Hparse;
      [|by unfold server.createCaptionSession, defineAction;
           rewrite Hparse].
    destruct (locals context ≫= App.user) as [user|] eqn:Huser.
    2:{ unfold server.createCaptionSession, defineAction. rewrite Hparse.
        unfold server.createCaptionSession_handler, mbind, Async_bind, await.
        by rewrite requireUser_absent. }
    rewrite (createCaptionSession_run raw input context user w) by done.
    simpl. case_bool_decide; [done|]. simpl.
    apply elem_of_appended. intros ->. by apply (Hother user).
  - destruct (server.updateCaptionSession_input raw) as [input|] eqn:Hparse;
      [|by unfold server.updateCaptionSession, defineAction;
           rewrite Hparse].
    destruct (locals context ≫= App.user) as [user|] eqn:Huser.
    2:{ unfold server.updateCaptionSession, defineAction. rewrite Hparse.
        unfold server.updateCaptionSession_handler, mbind, Async_bind, await.
        by rewrite requireUser_absent. }
    destruct (getOwnedSession_spec (UpdateCaptionSessionInput.id input)
                (App.id user) w)
      as [(old & _ & Hold & Hid & Hown)|[Hguard _]].
    + destruct (updateCaptionSession_run_found raw input context user w old)
        as (before & after & new & Hsplit & Hnew & ->); [done..|].
      simpl. rewrite Hsplit. apply elem_of_replaced.
      * intros ->. by apply (Hother user).
      * intros ->. by apply (Hother user).
    + unfold server.updateCaptionSession, defineAction. rewrite Hparse.
      unfold server.updateCaptionSession_handler, mbind, Async_bind, await.
      by rewrite (requireUser_present _ user), Hguard.
Qed.

Lemma other_users_sessions_untouched_witness :
  stays sessions hiring demo
    (server.updateCaptionSession rename_launch alice demo)
  ∧ stays sessions hiring demo
      (server.createCaptionSession new_session alice demo).
Proof.
  destruct (other_users_sessions_untouched rename_launch None alice demo
              hiring)
    as (_ & Hupdate & _).
  { decide_closed. }
  { intros user [= <-]. discriminate. }
  destruct (other_users_sessions_untouched new_session None alice demo
              hiring)
    as (Hcreate & _).
  { decide_closed. }
  { intros user [= <-]. discriminate. }
  by split.
Defined.

Lemma createCaption_failure_keeps_store raw context w err w1 :
  server.createCaption raw context w = (Throw err, w1) → db w1 = db w.
Proof.
  unfold server.createCaption, defineAction.
  destruct (server.createCaption_input raw) as [input|];
    [|by intros [= <- <-]].
  unfold server.createCaption_handler, mbind, Async_bind, await.
  unfold requireUser.
  destruct (locals context ≫= App.user) as [user|]; [|by intros [= <- <-]].
  unfold resolve at 1.
  destruct (getOwnedSession_spec (CreateCaptionInput.sessionId input)
              (App.id user) w) as [(s & -> & _)|[-> _]];
    [|by intros [= <- <-]].
  set (w1' := sent (Select TCaptionSessions) (db w) w).
  assert (∀ w2 : World,
            db w2 = db w →
            await randomUUID (λ uuid,
              await new_Date (λ now,
                await (db_insert CaptionsT
                         (Captions.mk uuid
                            (CreateCaptionInput.sessionId input)
                            (CreateCaptionInput.platform input)
                            (CreateCaptionInput.tone input)
                            (CreateCaptionInput.variantLabel input)
                            (CreateCaptionInput.captionText input)
                            (CreateCaptionInput.hashtags input) now))
                      (λ inserted,
                         resolve (mkEnvelope true (head inserted))))) w2
            = (Throw err, w1) →
            db w1 = db w) as Hinsert.
  { intros w2 Hdb. unfold await, randomUUID, new_Date, db_insert, resolve.
    simpl. case_bool_decide; [|done]. by intros [= <- <-]. }
  intros Hrun.
  destruct (CreateCaptionInput.templateId input) as [templateId|];
    [|by eapply (Hinsert w1'); [|exact Hrun]].
  destruct (truthy (Some templateId));
    [|by eapply (Hinsert w1'); [|exact Hrun]].
  pose proof (ensureTemplateAccessible_world templateId (App.id user) w1')
    as Hworld.
  destruct (ensureTemplateAccessible templateId (App.id user) w1')
    as [[t|err'] w2]; unfold world in Hworld; simpl in Hworld; subst w2.
  - unfold resolve at 1 in Hrun. by eapply Hinsert; [|exact Hrun].
  - by injection Hrun as <- <-.
Qed.

Lemma updateCaption_run_missing raw input context user w s :
  server.updateCaption_input raw = Some input →
  locals context ≫= App.user = Some user →
  s ∈ sessions (db w) →
  CaptionSessions.id s = UpdateCaptionInput.sessionId input →
  CaptionSessions.userId s = App.id user →
  (∀ x, x ∈ captions (db w) →
        ¬ (Captions.id x = UpdateCaptionInput.id input
           ∧ Captions.sessionId x = UpdateCaptionInput.sessionId input)) →
  outcome (server.updateCaption raw context w) = Throw caption_not_found
  ∧ db (world (server.updateCaption raw context w)) = db w.
Proof.
  intros Hparse Huser Hs Hsid Hown Hnone.
  unfold server.updateCaption, defineAction. rewrite Hparse.
  unfold server.updateCaption_handler, mbind, Async_bind, await.
  rewrite (requireUser_present _ user) by done.
  destruct (getOwnedSession_owned (UpdateCaptionInput.sessionId input)
              (App.id user) w s) as (s' & -> & _); [done..|].
  unfold db_select; simpl.
  rewrite filter_none; [done|].
  intros x Hx Hm. apply matches_and_eq_text in Hm. by apply (Hnone x).
Qed.

(** No action reaches a caption of another user.  Whatever the request, a
    caption that belongs to no session of the acting user is stored after
    the action exactly when it was stored before: it is neither changed nor
    removed, and no such caption is created. *)
Theorem other_users_captions_untouched raw body context w c :
  unique_keys CaptionsT (db w) →
  (∀ user, locals context ≫= App.user = Some user →
           foreign_caption (App.id user) (db w) c) →
  stays captions c w (server.createCaptionSession raw context w)
  ∧ stays captions c w (server.updateCaptionSession raw context w)
  ∧ stays captions c w (server.listCaptionSessions body context w)
  ∧ stays captions c w (server.createCaption raw context w)
  ∧ stays captions c w (server.updateCaption raw context w)
  ∧ stays captions c w (server.deleteCaption raw context w)
  ∧ stays captions c w (server.listCaptions raw context w)
  ∧ stays captions c w (server.createTemplate raw context w)
  ∧ stays captions c w (server.listTemplates body context w).
Proof.
  intros Hnd Hother. unfold stays.
  assert (∀ {O} (m : Async O),
            leaves captions m →
            c ∈ captions (db (world (m w))) ↔ c ∈ captions (db w)) as Hframe.
  { intros O m Hm. by rewrite (Hm w). }
  assert (∀ user s, locals context ≫= App.user = Some user →
            s ∈ sessions (db w) → CaptionSessions.userId s = App.id user →
            ∀ x, Captions.sessionId x = CaptionSessions.id s → c ≠ x)
    as Hdiffers.
  { intros user s Huser Hs Hown x Hx ->.
    by apply (Hother user Huser s Hs). }
  repeat match goal with |- _ ∧ _ => split end.
  1-3, 7-9: apply Hframe;
    unfold server.createCaptionSession, server.updateCaptionSession,
      server.listCaptionSessions, server.listCaptions,
      server.createTemplate, server.listTemplates,
      server.createCaptionSession_handler,
      server.updateCaptionSession_handler,
      server.listCaptionSessions_handler, server.listCaptions_handler,
      server.createTemplate_handler, server.listTemplates_handler;
    frame.
  - destruct (server.createCaption raw context w) as [[e|err] w1] eqn:Hrun.
    + destruct (createCaption_success_inv raw context w e w1 Hrun)
        as (input & user & s & x & _ & Huser & Hs & Hid & Hown & _ & Hx & _
            & Hdb).
      unfold world; simpl. rewrite Hdb. simpl.
      apply elem_of_appended.
      apply (Hdiffers user s); [done..|]. by rewrite Hx.
    + unfold world; simpl.
      by rewrite (createCaption_failure_keeps_store raw context w err w1).
  - destruct (server.updateCaption_input raw) as [input|] eqn:Hparse;
      [|by unfold server.updateCaption, defineAction; rewrite Hparse].
    destruct (locals context ≫= App.user) as [user|] eqn:Huser.
    2:{ unfold server.updateCaption, defineAction. rewrite Hparse.
        unfold server.updateCaption_handler, mbind, Async_bind, await.
        by rewrite requireUser_absent. }
    destruct (getOwnedSession_spec (UpdateCaptionInput.sessionId input)
                (App.id user) w)
      as [(s & _ & Hs & Hid & Hown)|[Hguard _]].
    2:{ unfold server.updateCaption, defineAction. rewrite Hparse.
        unfold server.updateCaption_handler, mbind, Async_bind, await.
        by rewrite (requireUser_present _ user), Hguard. }
    destruct (decide (Exists (λ x, Captions.id x = UpdateCaptionInput.id input
                                   ∧ Captions.sessionId x
                                     = UpdateCaptionInput.sessionId input)
                             (captions (db w))))
      as [Hsome|Hnone]; rewrite Exists_exists in *.
    + destruct Hsome as (x & Hx & Hxid & Hxsid).
      destruct (updateCaption_run_found raw input context user w s x)
        as (before & after & Hsplit & ->); [done..|].
      simpl. rewrite Hsplit. apply elem_of_replaced.
      * apply (Hdiffers user s); [done..|congruence].
      * apply (Hdiffers user s); [done..|].
        rewrite caption_set_keeps_session. congruence.
    + destruct (updateCaption_run_missing raw input context user w s)
        as [_ ->]; [done..| |done].
      intros x Hx Hboth. apply Hnone. by exists x.
  - destruct (server.deleteCaption_input raw) as [input|] eqn:Hparse;
      [|by unfold server.deleteCaption, defineAction; rewrite Hparse].
    destruct (locals context ≫= App.user) as [user|] eqn:Huser.
    2:{ unfold server.deleteCaption, defineAction. rewrite Hparse.
        unfold server.deleteCaption_handler, mbind, Async_bind, await.
        by rewrite requireUser_absent. }
    destruct (getOwnedSession_spec (DeleteCaptionInput.sessionId input)
                (App.id user) w)
      as [(s & _ & Hs & Hid & Hown)|[Hguard _]].
    2:{ unfold server.deleteCaption, defineAction. rewrite Hparse.
        unfold server.deleteCaption_handler, mbind, Async_bind, await.
        by rewrite (requireUser_present _ user), Hguard. }
    destruct (decide (Exists (λ x, Captions.id x = DeleteCaptionInput.id input
                                   ∧ Captions.sessionId x
                                     = DeleteCaptionInput.sessionId input)
                             (captions (db w))))
      as [Hsome|Hnone]; rewrite Exists_exists in *.
    + destruct Hsome as (x & Hx & Hxid & Hxsid).
      destruct (deleteCaption_run_found raw input context user w s x)
        as (before & after & Hsplit & _ & ->); [done..|].
      simpl. rewrite Hsplit. apply elem_of_removed.
      apply (Hdiffers user s); [done..|congruence].
    + destruct (deleteCaption_run_missing raw input context user w s)
        as [_ ->]; [done..| |done].
      intros x Hx Hboth. apply Hnone. by exists x.
Qed.

Lemma other_users_captions_untouched_witness :
  stays captions launch_a demo (server.deleteCaption remove_launch_a bob demo)
  ∧ stays captions launch_a demo
      (server.updateCaption retouch_launch_a bob demo).
Proof.
  assert (∀ user, locals bob ≫= App.user = Some user →
            foreign_caption (App.id user) (db demo) launch_a) as Hforeign.
  { intros user [= <-] s Hs Hid.
    assert (s ∈ [launch; teaser; hiring]) as Hin by exact Hs.
    rewrite !elem_of_cons, elem_of_nil in Hin.
    destruct Hin as [->|[->|[->|[]]]]; discriminate. }
  destruct (other_users_captions_untouched remove_launch_a None bob demo
              launch_a)
    as (_ & _ & _ & _ & _ & Hdelete & _); [decide_closed|exact Hforeign|].
  destruct (other_users_captions_untouched retouch_launch_a None bob demo
              launch_a)
    as (_ & _ & _ & _ & Hupdate & _); [decide_closed|exact Hforeign|].
  by split.
Defined.

(** ** A failed action leaves no trace in the store *)

Section atomicity.

Lemma fails_clean_throw {A} e : fails_clean (@throw A e).
Proof. by intros w e' w1 [= <- <-]. Qed.

Lemma fails_clean_resolve {A} (a : A) : fails_clean (resolve a).
Proof. by intros w e w1. Qed.

(** After a step that only reads, the rest decides. *)
Lemma fails_clean_await {A B} (m : Async A) (k : A → Async B) :
  leaves whole m → (∀ a, fails_clean (k a)) → fails_clean (m ≫= k).
Proof.
  intros Hm Hk w e w1. unfold mbind, Async_bind, await.
  specialize (Hm w). unfold whole, world in Hm.
  destruct (m w) as [[a|e'] w2]; simpl in Hm.
  - intros Hrun. rewrite <- Hm. by apply (Hk a w2 e).
  - by intros [= <- <-].
Qed.

Lemma fails_clean_insert {R B} (T : TableDef R) r (f : list R → B) :
  fails_clean (db_insert T r ≫= λ inserted, resolve (f inserted)).
Proof.
  intros w e w1. unfold mbind, Async_bind, await, db_insert, resolve.
  case_bool_decide; [|done]. by intros [= <- <-].
Qed.

Lemma fails_clean_update {R B} (T : TableDef R) s flt (f : list R → B) :
  fails_clean (db_update T s flt ≫= λ updated, resolve (f updated)).
Proof.
  intros w e w1. unfold mbind, Async_bind, await, db_update, resolve.
  destruct s; [|done]. by intros [= <- <-].
Qed.

Lemma filter_keeps_all_when_none {R} (hit : R → bool) (l : list R) :
  length (filter (λ r, hit r = true) l) = 0%nat →
  filter (λ r, hit r = false) l = l.
Proof.
  intros Hlen. apply length_zero_iff_nil in Hlen.
  apply filter_all. intros x Hx.
  destruct (hit x) eqn:Hhit; [|done].
  by destruct (filter_nil_not_elem_of _ _ x Hlen Hhit).
Qed.

Lemma fails_clean_deleteCaption flt :
  fails_clean
    (db_delete CaptionsT flt ≫= λ rowsAffected,
       if bool_decide (rowsAffected = 0%nat)
       then throw caption_not_found
       else resolve (mkEnvelope true ())).
Proof.
  intros w e w1. unfold mbind, Async_bind, await, db_delete, resolve, throw.
  case_bool_decide as Hzero; [|done].
  intros [= <- <-]. simpl. simpl in Hzero.
  rewrite (filter_keeps_all_when_none _ _ Hzero). by destruct (db w).
Qed.

Lemma fails_clean_defineAction {I P O} (input : I → option P)
    (handler : P → ActionAPIContext → Async O) raw context :
  (∀ parsed, fails_clean (handler parsed context)) →
  fails_clean (defineAction input handler raw context).
Proof.
  intros Hh. unfold defineAction.
  destruct (input raw); [apply Hh|apply fails_clean_throw].
Qed.

End atomicity.

Ltac clean :=
  repeat first
    [ apply fails_clean_resolve | apply fails_clean_throw
    | apply fails_clean_deleteCaption
    | apply fails_clean_update
    | apply fails_clean_insert
    | apply fails_clean_defineAction; intros ?
    | apply fails_clean_await; [solve [frame]|intros ?]
    | match goal with
      | |- fails_clean (match ?x with _ => _ end) => destruct x
      end ].

(** There is no partial failure: when an action ends in a failure, of
    whatever kind, the store is the one it started from.  This covers the
    store's own refusals as well, and [deleteCaption], whose NOT_FOUND is
    raised after the delete statement has run (on no row). *)
Theorem failed_actions_change_nothing raw body context :
  fails_clean (server.createCaptionSession raw context)
  ∧ fails_clean (server.updateCaptionSession raw context)
  ∧ fails_clean (server.listCaptionSessions body context)
  ∧ fails_clean (server.createCaption raw context)
  ∧ fails_clean (server.updateCaption raw context)
  ∧ fails_clean (server.deleteCaption raw context)
  ∧ fails_clean (server.listCaptions raw context)
  ∧ fails_clean (server.createTemplate raw context)
  ∧ fails_clean (server.listTemplates body context).
Proof.
  repeat match goal with |- _ ∧ _ => split end.
  - unfold server.createCaptionSession, server.createCaptionSession_handler.
    clean.
  - unfold server.updateCaptionSession, server.updateCaptionSession_handler.
    clean.
  - unfold server.listCaptionSessions, server.listCaptionSessions_handler.
    clean.
  - intros w e w1. apply createCaption_failure_keeps_store.
  - unfold server.updateCaption, server.updateCaption_handler. clean.
  - unfold server.deleteCaption, server.deleteCaption_handler. clean.
  - unfold server.listCaptions, server.listCaptions_handler. clean.
  - unfold server.createTemplate, server.createTemplate_handler. clean.
  - unfold server.listTemplates, server.listTemplates_handler. clean.
Qed.

(** ** A created template is private to its creator *)

(** A template returned by [createTemplate] is, from then on, listed by
    [listTemplates] for its creator and for nobody else, passes the
    template guard for its creator, and is FORBIDDEN to every other user,
    provided the creator's id is not the empty string. *)
Theorem created_template_is_private raw context w e w1 :
  unique_keys CaptionTemplatesT (db w) →
  server.createTemplate raw context w = (Return e, w1) →
  ∃ user t,
    locals context ≫= App.user = Some user
    ∧ e = mkEnvelope true (Some t)
    ∧ (∀ raw',
         object_or_undefined raw' →
         ∃ listing,
           outcome (server.listTemplates raw' context w1)
           = Return (mkEnvelope true listing)
           ∧ t ∈ items listing)
    ∧ (∀ raw' context' user',
         object_or_undefined raw' →
         locals context' ≫= App.user = Some user' →
         App.id user' ≠ App.id user →
         ∃ listing,
           outcome (server.listTemplates raw' context' w1)
           = Return (mkEnvelope true listing)
           ∧ t ∉ items listing)
    ∧ outcome (ensureTemplateAccessible (CaptionTemplates.id t)
                 (App.id user) w1) = Return t
    ∧ (∀ userId',
         userId' ≠ App.id user → App.id user ≠ "" →
         outcome (ensureTemplateAccessible (CaptionTemplates.id t) userId' w1)
         = Throw template_forbidden).
Proof.
  intros Hnd. unfold server.createTemplate, defineAction.
  destruct (server.createTemplate_input raw) as [input|]; [|done].
  unfold server.createTemplate_handler, requireUser.
  destruct (locals context ≫= App.user) as [user|] eqn:Huser; [|done].
  unfold randomUUID, new_Date, db_insert. run.
  case_bool_decide as Hfresh; [done|].
  intros [= <- <-].
  set (t := CaptionTemplates.mk (uuid_source w (uuid_drawn w))
              (Some (App.id user)) (CreateTemplateInput.name input)
              (CreateTemplateInput.platform input)
              (CreateTemplateInput.tone input)
              (CreateTemplateInput.body input) false (clock w)).
  set (w1 := sent (Insert TCaptionTemplates)
               (mkDb (sessions (db w)) (captions (db w))
                     (templates (db w) ++ [t]))
               (mkWorld (db w) (journal w) (clock w) (uuid_source w)
                        (S (uuid_drawn w)))).
  assert (t ∈ templates (db w1)) as Hin.
  { simpl. apply elem_of_app. right. left. }
  assert (unique_keys CaptionTemplatesT (db w1)) as Hnd1.
  { unfold unique_keys; simpl. by apply NoDup_snoc_keys. }
  exists user, t. split; [done|]. split; [done|].
  split; [|split; [|split]].
  - intros raw' Hbody.
    rewrite (listTemplates_returns_owned_only raw' context user w1) by done.
    eexists. split; [reflexivity|]. simpl.
    apply list_elem_of_filter. split; [done|].
    apply elem_of_app. right. left.
  - intros raw' context' user' Hbody Huser' Hdiff.
    rewrite (listTemplates_returns_owned_only raw' context' user' w1) by done.
    eexists. split; [reflexivity|]. simpl.
    intros Hlisted. apply list_elem_of_filter in Hlisted as [Hown _].
    simpl in Hown. apply Hdiff. congruence.
  - rewrite (ensureTemplateAccessible_found (App.id user) w1 t) by done.
    simpl. rewrite (bool_decide_eq_false_2 (_ ≠ _)) by auto.
    by rewrite andb_false_r.
  - intros userId' Hdiff Hnonempty.
    rewrite (ensureTemplateAccessible_found userId' w1 t) by done.
    simpl. rewrite (bool_decide_eq_false_2 (App.id user = "")) by done.
    by rewrite bool_decide_eq_true_2 by congruence.
Qed.

Lemma created_template_is_private_witness :
  ∃ t,
    outcome (server.createTemplate promo_template alice demo)
    = Return (mkEnvelope true (Some t))
    ∧ outcome (ensureTemplateAccessible (CaptionTemplates.id t) "bob"
                 (world (server.createTemplate promo_template alice demo)))
      = Throw template_forbidden.
Proof.
  edestruct (created_template_is_private promo_template alice demo)
    as (user & t & Huser & He & _ & _ & _ & Hforbidden);
    [decide_closed|reflexivity|].
  exists t. split; [by rewrite <- He|].
  injection Huser as <-. by apply Hforbidden.
Defined.
